(** * Finite complex reflection groups: derived invariants and Catalan numbers

    A shallow embedding of
    [src/sage/categories/finite_complex_reflection_groups.py].

    The category attaches default methods to any parent that supplies the
    optional primitives [degrees] and [codegrees].  A parent is modelled by
    the record [Group] of the primitives the methods consult; every method
    is a function of that record that either returns a value or raises. *)

From Stdlib Require Import ZArith List String Bool Lia DecimalString Sorted
  Permutation.
Import ListNotations.
Local Open Scope Z_scope.

(** ** The Python runtime the methods run on *)

Module Py.

(** The exceptions that the methods of this file can raise.  [Unsupported]
    stands for the call of an optional abstract method that the concrete
    parent does not implement. *)
Inductive exception : Type :=
| ValueError (msg : string)
| ZeroDivisionError
| Unsupported (method : string).

Inductive result (A : Type) : Type :=
| Ok (a : A)
| Raise (e : exception).
Arguments Ok {A} a.
Arguments Raise {A} e.

Definition bind {A B : Type} (m : result A) (k : A -> result B) : result B :=
  match m with
  | Ok a => k a
  | Raise e => Raise e
  end.

Definition fmap {A B : Type} (f : A -> B) (m : result A) : result B :=
  bind m (fun a => Ok (f a)).

Declare Scope py_scope.
Delimit Scope py_scope with py.
Notation "x <- m ;; k" := (bind m (fun x => k))
  (at level 61, m at next level, right associativity) : py_scope.
Local Open Scope py_scope.

(** [for x in xs] with a body that may raise: the elements are produced
    from left to right and the first exception stops the iteration. *)
Fixpoint mapM {A B : Type} (f : A -> result B) (xs : list A) : result (list B) :=
  match xs with
  | [] => Ok []
  | x :: xs' => y <- f x ;; ys <- mapM f xs' ;; Ok (y :: ys)
  end.

(** [str(n)] and ["%s" % n] for an integer [n]. *)
Definition str (n : Z) : string := NilZero.string_of_int (Z.to_int n).

(** [len(l)] *)
Definition len {A : Type} (l : list A) : Z := Z.of_nat (List.length l).

(** [sum(l)]: the accumulator starts at 0 and the elements are added from
    left to right. *)
Definition sum (l : list Z) : Z := fold_left Z.add l 0.

(** [max(l)] raises [ValueError] on an empty sequence. *)
Definition max (l : list Z) : result Z :=
  match l with
  | [] => Raise (ValueError "max() arg is an empty sequence")
  | x :: xs => Ok (fold_left Z.max xs x)
  end.

(** [l.count(x)] *)
Definition count (l : list Z) (x : Z) : Z := Z.of_nat (count_occ Z.eq_dec l x).

(** [l[:-1]]: every element but the last; the empty list stays empty. *)
Definition but_last {A : Type} (l : list A) : list A := removelast l.

(** [a % b] on integers, for a modulus [b > 0] the residue in [0, b). *)
Definition mod_ (a b : Z) : result Z :=
  if b =? 0 then Raise ZeroDivisionError else Ok (a mod b).

(** [gcd(a, b)], never negative. *)
Definition gcd (a b : Z) : Z := Z.gcd a b.

(** The arithmetic a value must support to go through [prod] and [//]:
    the code is duck typed and runs unchanged on integers and on
    polynomials. *)
Class Number (R : Type) : Type := {
  one : R;
  mul : R -> R -> R;
  floordiv : R -> R -> result R
}.

(** [prod(l)]: the product of the elements, 1 for the empty list. *)
Definition prod {R : Type} `{Number R} (l : list R) : R := fold_left mul l one.

#[export] Instance Z_Number : Number Z := {
  one := 1;
  mul := Z.mul;
  floordiv := fun a b => if b =? 0 then Raise ZeroDivisionError else Ok (a / b)
}.

End Py.

Export Py.
Local Open Scope py_scope.

(** ** Polynomials in [q] with integer coefficients *)

Module Poly.

(** Modelled from the spec: the polynomial arithmetic of the host system
    (the ring of polynomials in [q] over the integers, its product, its
    exact division and the [q_int] constructor) is a library service that
    is not part of this file.  A polynomial is the list of its coefficients,
    constant term first; trailing zeros do not change the polynomial. *)
Definition poly : Type := list Z.

Definition coeff (p : poly) (i : nat) : Z := nth i p 0.

(** The representative without trailing zeros. *)
Fixpoint pnorm (p : poly) : poly :=
  match p with
  | [] => []
  | a :: p' =>
      match pnorm p' with
      | [] => if a =? 0 then [] else [a]
      | r => a :: r
      end
  end.

Fixpoint padd (p q : poly) : poly :=
  match p, q with
  | [], _ => q
  | _, [] => p
  | a :: p', b :: q' => (a + b) :: padd p' q'
  end.

Definition pscale (c : Z) (p : poly) : poly := map (Z.mul c) p.

Fixpoint pmul (p q : poly) : poly :=
  match p with
  | [] => []
  | a :: p' => padd (pscale a q) (0 :: pmul p' q)
  end.

(** Modelled from the spec: the q-integer [1 + q + ... + q^(n-1)] of an
    integer [n]; an empty sum, the zero polynomial, when [n <= 0]. *)
Definition q_int (n : Z) : poly := repeat 1 (Z.to_nat n).

(** Long division of [a] by the polynomial [b0 ++ [lead]] of degree
    [length b0].  The dividend is consumed from its leading coefficient
    down: the recursive call has divided the higher part, the coefficient
    [x] is then brought down in front of the running remainder, and one
    more quotient coefficient is produced.  The remainder always has
    [length b0] coefficients. *)
Fixpoint pdivmod (a b0 : poly) (lead : Z) : poly * poly :=
  match a with
  | [] => ([], repeat 0 (List.length b0))
  | x :: a' =>
      let (qt, r) := pdivmod a' b0 lead in
      let t := x :: r in
      let c := last t 0 / lead in
      (c :: qt, map (fun tb => fst tb - c * snd tb) (combine t b0))
  end.

(** [a // b] raises [ZeroDivisionError] on the zero polynomial and is the
    quotient of the long division otherwise. *)
Definition pfloordiv (a b : poly) : result poly :=
  match rev (pnorm b) with
  | [] => Raise ZeroDivisionError
  | lead :: rb0 => Ok (pnorm (fst (pdivmod a (rev rb0) lead)))
  end.

#[export] Instance poly_Number : Number poly := {
  one := [1];
  mul := pmul;
  floordiv := pfloordiv
}.

End Poly.

Export Poly.

(** ** Parents of the category *)

(** What a concrete parent supplies.  [degrees] and [codegrees] are optional
    abstract methods: [None] is a parent that does not implement them.  The
    two counts are methods of the surrounding categories. *)
Record Group : Type := {
  degrees_impl : option (list Z);
  codegrees_impl : option (list Z);
  number_of_simple_reflections : Z;
  number_of_irreducible_components : Z
}.

(** What [rational_catalan_number] and its callers return: an integer, or a
    polynomial in [q] when [polynomial=True]. *)
Inductive value : Type :=
| Integer (n : Z)
| Polynomial (f : poly).

(** How a [_test_*] method of the test suite ends: every assertion held,
    [assertEqual(first, second)] failed, or an exception escaped while the
    arguments of the assertion were computed. *)
Inductive test_outcome : Type :=
| Passed
| AssertionError (first second : Z)
| Errored (e : exception).

Module FiniteComplexReflectionGroups.

Module ParentMethods.

Definition degrees (self : Group) : result (list Z) :=
  match degrees_impl self with
  | Some ds => Ok ds
  | None => Raise (Unsupported "degrees")
  end.

Definition codegrees (self : Group) : result (list Z) :=
  match codegrees_impl self with
  | Some cs => Ok cs
  | None => Raise (Unsupported "codegrees")
  end.

Definition rank (self : Group) : result Z :=
  ds <- degrees self ;; Ok (len ds).

Definition number_of_reflecting_hyperplanes (self : Group) : result Z :=
  cs <- codegrees self ;;
  n <- rank self ;;
  Ok (sum cs + n).

Definition number_of_reflections (self : Group) : result Z :=
  ds <- degrees self ;;
  n <- rank self ;;
  Ok (sum ds - n).

Definition cardinality (self : Group) : result Z :=
  ds <- degrees self ;; Ok (prod ds).

Definition is_well_generated (self : Group) : result bool :=
  n <- rank self ;;
  Ok (number_of_simple_reflections self =? n).

Definition is_real (self : Group) : result bool :=
  ds <- degrees self ;;
  Ok (count ds 2 =? number_of_irreducible_components self).

End ParentMethods.

Module Irreducible.
Module ParentMethods.
Import FiniteComplexReflectionGroups.ParentMethods.

Definition coxeter_number (self : Group) : result Z :=
  nh <- number_of_reflecting_hyperplanes self ;;
  nr <- number_of_reflections self ;;
  n <- rank self ;;
  floordiv (nh + nr) n.

End ParentMethods.
End Irreducible.

Module WellGenerated.

Module ParentMethods.

Definition _test_well_generated (self : Group) : test_outcome :=
  match FiniteComplexReflectionGroups.ParentMethods.rank self with
  | Raise e => Errored e
  | Ok n =>
      if number_of_simple_reflections self =? n then Passed
      else AssertionError (number_of_simple_reflections self) n
  end.

Definition is_well_generated (self : Group) : result bool := Ok true.

End ParentMethods.

Module Irreducible.
Module ParentMethods.
Import FiniteComplexReflectionGroups.ParentMethods.

Definition coxeter_number (self : Group) : result Z :=
  ds <- degrees self ;; max ds.

Definition number_of_reflections_of_full_support (self : Group) : result Z :=
  n <- rank self ;;
  h <- coxeter_number self ;;
  l <- cardinality self ;;
  cs <- codegrees self ;;
  let codegrees := but_last cs in
  floordiv (n * h * prod codegrees) l.

(** The text of the [ValueError] raised for a parameter that is not
    coprime to the Coxeter number. *)
Definition not_coprime_message (p h : Z) : string :=
  ("parameter p = " ++ str p ++ " is not coprime to the Coxeter number "
     ++ str h)%string.

(** The two products and their quotient, for the function [f] that the
    flag [polynomial] has selected. *)
Definition catalan_quotient {R : Type} `{Number R} (f : Z -> R)
    (self : Group) (p h : Z) : result R :=
  ds <- degrees self ;;
  factors <- mapM (fun deg => r <- mod_ (p * (deg - 1)) h ;; Ok (f (p + r))) ds ;;
  let num := prod factors in
  ds' <- degrees self ;;
  let den := prod (map f ds') in
  floordiv num den.

Definition rational_catalan_number (self : Group) (p : Z) (polynomial : bool)
    : result value :=
  h <- coxeter_number self ;;
  if negb (gcd h p =? 1) then
    Raise (ValueError (not_coprime_message p h))
  else if polynomial then
    fmap Polynomial (catalan_quotient q_int self p h)
  else
    fmap Integer (catalan_quotient (fun n => n) self p h).

Definition fuss_catalan_number (self : Group) (m : Z)
    (positive polynomial : bool) : result value :=
  h <- coxeter_number self ;;
  let p := if positive then m * h - 1 else m * h + 1 in
  rational_catalan_number self p polynomial.

Definition catalan_number (self : Group) (positive polynomial : bool)
    : result value :=
  fuss_catalan_number self 1 positive polynomial.

End ParentMethods.
End Irreducible.

End WellGenerated.

End FiniteComplexReflectionGroups.

Import FiniteComplexReflectionGroups.
Module Base := FiniteComplexReflectionGroups.ParentMethods.
Module Irr := FiniteComplexReflectionGroups.Irreducible.ParentMethods.
Module WG := FiniteComplexReflectionGroups.WellGenerated.ParentMethods.
Module WGI := FiniteComplexReflectionGroups.WellGenerated.Irreducible.ParentMethods.

(** ** Sample parents

    The degrees and codegrees that the docstrings of the source print. *)

(** [ColoredPermutations(1,3)]: degrees [2, 3]. *)
Definition ColoredPermutations_1_3 : Group :=
  {| degrees_impl := Some [2; 3]; codegrees_impl := Some [1; 0];
     number_of_simple_reflections := 2;
     number_of_irreducible_components := 1 |}.

(** [ColoredPermutations(1,4)]: degrees [2, 3, 4], codegrees [2, 1, 0]. *)
Definition ColoredPermutations_1_4 : Group :=
  {| degrees_impl := Some [2; 3; 4]; codegrees_impl := Some [2; 1; 0];
     number_of_simple_reflections := 3;
     number_of_irreducible_components := 1 |}.

(** [ColoredPermutations(3,3)]: degrees [3, 6, 9], codegrees [6, 3, 0]. *)
Definition ColoredPermutations_3_3 : Group :=
  {| degrees_impl := Some [3; 6; 9]; codegrees_impl := Some [6; 3; 0];
     number_of_simple_reflections := 3;
     number_of_irreducible_components := 1 |}.

(** [ReflectionGroup((4,2,3))]: irreducible, three degrees, not well
    generated: it needs four simple reflections. *)
Definition ReflectionGroup_4_2_3 : Group :=
  {| degrees_impl := Some [4; 6; 8]; codegrees_impl := Some [8; 4; 0];
     number_of_simple_reflections := 4;
     number_of_irreducible_components := 1 |}.

(** The trivial group: no degrees, no codegrees, rank 0. *)
Definition trivial_parent : Group :=
  {| degrees_impl := Some []; codegrees_impl := Some [];
     number_of_simple_reflections := 0;
     number_of_irreducible_components := 0 |}.

(** [ColoredPermutations(2,4)]: degrees [2, 4, 6, 8]. *)
Definition ColoredPermutations_2_4 : Group :=
  {| degrees_impl := Some [2; 4; 6; 8]; codegrees_impl := Some [6; 4; 2; 0];
     number_of_simple_reflections := 4;
     number_of_irreducible_components := 1 |}.

(** [ColoredPermutations(2,2)], of type B2: degrees [2, 4]. *)
Definition ColoredPermutations_2_2 : Group :=
  {| degrees_impl := Some [2; 4]; codegrees_impl := Some [2; 0];
     number_of_simple_reflections := 2;
     number_of_irreducible_components := 1 |}.

(** The example of the category, [ReflectionGroup((1,1,3), (2,1,2))]: the
    reducible real reflection group of rank 4 and type A2 x B2. *)
Definition ReflectionGroup_A2xB2 : Group :=
  {| degrees_impl := Some [2; 2; 3; 4]; codegrees_impl := Some [2; 1; 0; 0];
     number_of_simple_reflections := 4;
     number_of_irreducible_components := 2 |}.


(** A parent that implements neither [degrees] nor [codegrees]. *)
Definition bare_parent : Group :=
  {| degrees_impl := None; codegrees_impl := None;
     number_of_simple_reflections := 1;
     number_of_irreducible_components := 1 |}.

(** ** Properties of the input that the code relies on *)

(** The degrees are positive integers. *)
Definition positive_degrees (ds : list Z) : Prop := Forall (fun d => 0 < d) ds.

(** For an irreducible well-generated group the ascending degrees and the
    descending codegrees pair up to the Coxeter number:
    [d_i + d*_i = h] for every [i]. *)
Definition degrees_codegrees_dual (ds cs : list Z) (h : Z) : Prop :=
  Forall2 (fun d c => d + c = h) ds cs.

(** Two coefficient lists denote the same polynomial. *)
Definition peq (p q : poly) : Prop := forall i, coeff p i = coeff q i.

(** [p] has degree [m] and leading coefficient 1. *)
Definition monic_deg (p : poly) (m : nat) : Prop :=
  coeff p m = 1 /\ forall i, (m < i)%nat -> coeff p i = 0.

(** One factor of the numerator: [f(p + (p * (deg - 1)) % h)]. *)
Definition factor {R : Type} (f : Z -> R) (p h deg : Z) : R :=
  f (p + (p * (deg - 1)) mod h).

(** The value of a polynomial at [x], by Horner's rule. *)
Fixpoint peval (p : poly) (x : Z) : Z :=
  match p with
  | [] => 0
  | a :: p' => a + x * peval p' x
  end.

(** * Verification *)

(** ** The runtime *)

Lemma bind_Ok {A B : Type} (a : A) (k : A -> result B) : bind (Ok a) k = k a.
Proof. reflexivity. Qed.

Lemma fold_left_add_acc (l : list Z) (a : Z) :
  fold_left Z.add l a = a + fold_left Z.add l 0.
Proof.
  revert a; induction l as [|x l IH]; intros a; simpl.
  - lia.
  - rewrite IH, (IH x). lia.
Qed.

Lemma sum_cons (x : Z) (l : list Z) : sum (x :: l) = x + sum l.
Proof. unfold sum; simpl. now rewrite fold_left_add_acc. Qed.

Lemma fold_left_mul_acc (l : list Z) (a : Z) :
  fold_left Z.mul l a = a * fold_left Z.mul l 1.
Proof.
  revert a; induction l as [|x l IH]; intros a.
  - simpl. lia.
  - change (fold_left Z.mul l (a * x) = a * fold_left Z.mul l (1 * x)).
    rewrite (IH (a * x)), (IH (1 * x)). lia.
Qed.

Lemma prod_Z_cons (x : Z) (l : list Z) : prod (x :: l) = x * prod l.
Proof.
  change (fold_left Z.mul l (1 * x) = x * fold_left Z.mul l 1).
  rewrite fold_left_mul_acc. lia.
Qed.

Lemma prod_Z_nonzero (l : list Z) : Forall (fun d => d <> 0) l -> prod l <> 0.
Proof.
  induction 1 as [|x l Hx _ IH].
  - discriminate.
  - rewrite prod_Z_cons. lia.
Qed.

Lemma fold_left_max_ge (l : list Z) (a : Z) :
  a <= fold_left Z.max l a /\ Forall (fun d => d <= fold_left Z.max l a) l.
Proof.
  revert a; induction l as [|x l IH]; intros a; simpl.
  - split; [lia | constructor].
  - destruct (IH (Z.max a x)) as [H1 H2]. split; [lia|].
    constructor; [lia | exact H2].
Qed.

Lemma fold_left_max_In (l : list Z) (a : Z) :
  fold_left Z.max l a = a \/ In (fold_left Z.max l a) l.
Proof.
  revert a; induction l as [|x l IH]; intros a; simpl.
  - now left.
  - destruct (IH (Z.max a x)) as [H | H].
    + rewrite H. destruct (Z.max_spec a x) as [[_ E] | [_ E]]; rewrite E; auto.
    + auto.
Qed.

(** [max] returns an element of the list that bounds every element. *)
Lemma max_spec (l : list Z) (h : Z) :
  max l = Ok h -> In h l /\ Forall (fun d => d <= h) l.
Proof.
  destruct l as [|x l]; simpl; [discriminate|].
  intros [= <-]. split.
  - destruct (fold_left_max_In l x) as [H | H]; [left; now rewrite H | now right].
  - destruct (fold_left_max_ge l x) as [H1 H2]. constructor; assumption.
Qed.

Lemma max_positive (l : list Z) (h : Z) :
  positive_degrees l -> max l = Ok h -> 0 < h.
Proof.
  intros Hpos Hmax. apply max_spec in Hmax as [Hin _].
  unfold positive_degrees in Hpos. rewrite Forall_forall in Hpos.
  now apply Hpos.
Qed.

(** ** The primitives and the Coxeter number *)

Lemma degrees_Some (G : Group) (ds : list Z) :
  degrees_impl G = Some ds -> Base.degrees G = Ok ds.
Proof. unfold Base.degrees. now intros ->. Qed.

Lemma codegrees_Some (G : Group) (cs : list Z) :
  codegrees_impl G = Some cs -> Base.codegrees G = Ok cs.
Proof. unfold Base.codegrees. now intros ->. Qed.

Lemma rank_Some (G : Group) (ds : list Z) :
  degrees_impl G = Some ds -> Base.rank G = Ok (len ds).
Proof. intros H. unfold Base.rank. now rewrite (degrees_Some G ds H). Qed.

(** The well-generated Coxeter number exists exactly when the degrees are
    implemented and not empty, and is then their maximum. *)
Lemma coxeter_number_max (G : Group) (ds : list Z) :
  degrees_impl G = Some ds -> WGI.coxeter_number G = max ds.
Proof. intros H. unfold WGI.coxeter_number. now rewrite (degrees_Some G ds H). Qed.

Lemma coxeter_number_inv (G : Group) (h : Z) :
  WGI.coxeter_number G = Ok h ->
  exists ds, degrees_impl G = Some ds /\ max ds = Ok h.
Proof.
  unfold WGI.coxeter_number, Base.degrees.
  destruct (degrees_impl G) as [ds|]; simpl; [|discriminate].
  intros H. now exists ds.
Qed.



(** The two coprimality facts behind the Fuss-Catalan parameters. *)
Lemma gcd_mul_plus_1 (h m : Z) : gcd h (m * h + 1) = 1.
Proof.
  unfold gcd. replace (m * h + 1) with (1 + m * h) by lia.
  rewrite Z.gcd_add_mult_diag_r. apply Z.gcd_1_r.
Qed.

Lemma gcd_mul_minus_1 (h m : Z) : gcd h (m * h - 1) = 1.
Proof.
  unfold gcd. replace (m * h - 1) with (- (1) + m * h) by lia.
  rewrite Z.gcd_add_mult_diag_r, Z.gcd_opp_r. apply Z.gcd_1_r.
Qed.

(** ** The generator expression of [rational_catalan_number] *)

Lemma mapM_factors {R : Type} (f : Z -> R) (p h : Z) (ds : list Z) :
  h <> 0 ->
  mapM (fun deg => r <- mod_ (p * (deg - 1)) h ;; Ok (f (p + r))) ds
  = Ok (map (factor f p h) ds).
Proof.
  intros Hh. induction ds as [|d ds IH]; simpl; [reflexivity|].
  unfold mod_ at 1. destruct (Z.eqb_spec h 0) as [|_]; [contradiction|].
  simpl. rewrite IH. reflexivity.
Qed.

Lemma mapM_factors_zero {R : Type} (f : Z -> R) (p : Z) (ds : list Z) :
  ds <> [] ->
  mapM (fun deg => r <- mod_ (p * (deg - 1)) 0 ;; Ok (f (p + r))) ds
  = Raise ZeroDivisionError.
Proof. destruct ds; [contradiction | reflexivity]. Qed.

Lemma catalan_quotient_eq {R : Type} `{Number R} (f : Z -> R)
    (G : Group) (ds : list Z) (p h : Z) :
  degrees_impl G = Some ds -> h <> 0 ->
  WGI.catalan_quotient f G p h
  = floordiv (prod (map (factor f p h) ds)) (prod (map f ds)).
Proof.
  intros Hd Hh. unfold WGI.catalan_quotient.
  rewrite (degrees_Some G ds Hd). simpl.
  rewrite mapM_factors by assumption. reflexivity.
Qed.

Lemma map_id_Z (l : list Z) : map (fun n : Z => n) l = l.
Proof. apply map_id. Qed.

(** ** Derived invariants *)

(** C7: with degrees and codegrees defined, [rank()] is [len(degrees())],
    [number_of_reflections()] is [sum(degrees()) - rank()] and
    [number_of_reflecting_hyperplanes()] is [sum(codegrees()) + rank()]. *)
Theorem reflection_counts_from_degrees (G : Group) (ds cs : list Z) :
  degrees_impl G = Some ds ->
  codegrees_impl G = Some cs ->
  Base.rank G = Ok (len ds) /\
  Base.number_of_reflections G = Ok (sum ds - len ds) /\
  Base.number_of_reflecting_hyperplanes G = Ok (sum cs + len ds).
Proof.
  intros Hd Hc. split; [|split].
  - now apply rank_Some.
  - unfold Base.number_of_reflections.
    now rewrite (degrees_Some G ds Hd), (rank_Some G ds Hd).
  - unfold Base.number_of_reflecting_hyperplanes.
    now rewrite (codegrees_Some G cs Hc), (rank_Some G ds Hd).
Qed.

Lemma reflection_counts_from_degrees_witness :
  Base.rank ReflectionGroup_4_2_3 = Ok 3 /\
  Base.number_of_reflections ReflectionGroup_4_2_3 = Ok 15 /\
  Base.number_of_reflecting_hyperplanes ReflectionGroup_4_2_3 = Ok 15.
Proof.
  exact (reflection_counts_from_degrees ReflectionGroup_4_2_3 [4; 6; 8] [8; 4; 0]
           eq_refl eq_refl).
Defined.

(** C8: [is_real()] is [True] exactly when the number of occurrences of 2
    among the degrees equals [number_of_irreducible_components()], and
    [False] otherwise. *)
Theorem is_real_iff_count_of_2 (G : Group) (ds : list Z) :
  degrees_impl G = Some ds ->
  Base.is_real G = Ok (count ds 2 =? number_of_irreducible_components G) /\
  (Base.is_real G = Ok true <->
   count ds 2 = number_of_irreducible_components G).
Proof.
  intros Hd.
  assert (E : Base.is_real G
              = Ok (count ds 2 =? number_of_irreducible_components G)).
  { unfold Base.is_real. now rewrite (degrees_Some G ds Hd). }
  split; [exact E|]. rewrite E. split.
  - intros [= H]. now apply Z.eqb_eq.
  - intros H. f_equal. now apply Z.eqb_eq.
Qed.

Lemma is_real_iff_count_of_2_witness :
  Base.is_real ColoredPermutations_1_3 = Ok true /\
  (Base.is_real ColoredPermutations_1_3 = Ok true <-> 1 = 1).
Proof.
  exact (is_real_iff_count_of_2 ColoredPermutations_1_3 [2; 3] eq_refl).
Defined.

(** C10: in the well-generated specialization [is_well_generated()] is the
    constant [True]: it does not depend on the parent at all, whereas the
    general method compares [number_of_simple_reflections()] with [rank()]
    and so answers [False], or fails, on parents where the override still
    answers [True]. *)
Theorem is_well_generated_override :
  (forall G, WG.is_well_generated G = Ok true) /\
  (forall G, Base.is_well_generated G
             = (n <- Base.rank G ;; Ok (number_of_simple_reflections G =? n))) /\
  Base.is_well_generated ReflectionGroup_4_2_3 = Ok false /\
  Base.is_well_generated bare_parent = Raise (Unsupported "degrees").
Proof. repeat split. Qed.

(** ** Coxeter number *)



(** The docstring value for [ReflectionGroup(31)], which is irreducible but
    not well generated: the general formula gives 30 while the largest
    degree is 24, so the pairing of degrees and codegrees is what makes the
    two formulas meet. *)
Example coxeter_number_G31 :
  let G31 := {| degrees_impl := Some [8; 12; 20; 24];
                codegrees_impl := Some [28; 16; 12; 0];
                number_of_simple_reflections := 5;
                number_of_irreducible_components := 1 |} in
  Irr.coxeter_number G31 = Ok 30 /\ WGI.coxeter_number G31 = Ok 24.
Proof. split; reflexivity. Qed.

(** ** Reflections of full support *)

(** C6: [number_of_reflections_of_full_support()] is
    [rank * coxeter_number * prod(codegrees[:-1]) // cardinality], where
    [codegrees[:-1]] drops the last stored codegree; a single codegree
    leaves the empty product 1. *)
Theorem full_support_formula (G : Group) (ds cs : list Z) (h : Z) :
  degrees_impl G = Some ds ->
  codegrees_impl G = Some cs ->
  WGI.coxeter_number G = Ok h ->
  prod ds <> 0 ->
  Base.rank G = Ok (len ds) /\
  Base.cardinality G = Ok (prod ds) /\
  WGI.number_of_reflections_of_full_support G
  = Ok (len ds * h * prod (but_last cs) / prod ds) /\
  (forall c : Z, prod (but_last [c]) = 1).
Proof.
  intros Hd Hc Hh Hl.
  assert (Hcard : Base.cardinality G = Ok (prod ds)).
  { unfold Base.cardinality. now rewrite (degrees_Some G ds Hd). }
  repeat split.
  - now apply rank_Some.
  - exact Hcard.
  - unfold WGI.number_of_reflections_of_full_support.
    rewrite (rank_Some G ds Hd), Hh, Hcard, (codegrees_Some G cs Hc). simpl.
    destruct (Z.eqb_spec (prod ds) 0) as [E0|_]; [contradiction | reflexivity].
Qed.

Lemma full_support_formula_witness :
  Base.rank ColoredPermutations_3_3 = Ok 3 /\
  Base.cardinality ColoredPermutations_3_3 = Ok 162 /\
  WGI.number_of_reflections_of_full_support ColoredPermutations_3_3 = Ok 3 /\
  (forall c : Z, prod (but_last [c]) = 1).
Proof.
  apply (full_support_formula ColoredPermutations_3_3 [3; 6; 9] [6; 3; 0] 9).
  - reflexivity.
  - reflexivity.
  - reflexivity.
  - discriminate.
Defined.

(** ** Catalan numbers *)

(** C4: [fuss_catalan_number(m, positive, polynomial)] is
    [rational_catalan_number(p, polynomial)] for [p = m*h - 1] when
    [positive] and [p = m*h + 1] otherwise; [catalan_number] is
    [fuss_catalan_number] at [m = 1]; with the default flags
    [catalan_number() = fuss_catalan_number(1) = rational_catalan_number(h+1)]. *)
Theorem catalan_fuss_rational (G : Group) (h : Z) :
  WGI.coxeter_number G = Ok h ->
  WGI.catalan_number G false false = WGI.fuss_catalan_number G 1 false false /\
  WGI.fuss_catalan_number G 1 false false
  = WGI.rational_catalan_number G (h + 1) false /\
  (forall m positive polynomial,
     WGI.fuss_catalan_number G m positive polynomial
     = WGI.rational_catalan_number G
         (if positive then m * h - 1 else m * h + 1) polynomial) /\
  (forall positive polynomial,
     WGI.catalan_number G positive polynomial
     = WGI.fuss_catalan_number G 1 positive polynomial).
Proof.
  intros Hh.
  assert (F : forall m positive polynomial,
             WGI.fuss_catalan_number G m positive polynomial
             = WGI.rational_catalan_number G
                 (if positive then m * h - 1 else m * h + 1) polynomial).
  { intros m positive polynomial. unfold WGI.fuss_catalan_number.
    rewrite Hh. reflexivity. }
  repeat split.
  - rewrite (F 1 false false). f_equal. lia.
  - exact F.
Qed.

Lemma catalan_fuss_rational_witness :
  WGI.catalan_number ColoredPermutations_1_4 false false
  = WGI.fuss_catalan_number ColoredPermutations_1_4 1 false false /\
  WGI.fuss_catalan_number ColoredPermutations_1_4 1 false false
  = WGI.rational_catalan_number ColoredPermutations_1_4 (4 + 1) false /\
  (forall m positive polynomial,
     WGI.fuss_catalan_number ColoredPermutations_1_4 m positive polynomial
     = WGI.rational_catalan_number ColoredPermutations_1_4
         (if positive then m * 4 - 1 else m * 4 + 1) polynomial) /\
  (forall positive polynomial,
     WGI.catalan_number ColoredPermutations_1_4 positive polynomial
     = WGI.fuss_catalan_number ColoredPermutations_1_4 1 positive polynomial).
Proof. exact (catalan_fuss_rational ColoredPermutations_1_4 4 eq_refl). Defined.

(** The scenario of the spec: degrees [2, 3, 4], Coxeter number 4, Catalan
    number 14; and the docstring values of [fuss_catalan_number]. *)
Example catalan_number_ColoredPermutations_1_4 :
  WGI.catalan_number ColoredPermutations_1_4 false false = Ok (Integer 14) /\
  map (fun m => WGI.fuss_catalan_number ColoredPermutations_1_4 m false false)
      [1; 2; 3]
  = [Ok (Integer 14); Ok (Integer 55); Ok (Integer 140)].
Proof. split; reflexivity. Qed.

(** The exceptions [catalan_quotient] can raise are those of [%] and [//]:
    never a [ValueError]. *)
Lemma floordiv_Z_no_ValueError (a b : Z) (msg : string) :
  floordiv a b <> Raise (ValueError msg).
Proof. simpl. destruct (b =? 0); discriminate. Qed.

Lemma floordiv_poly_no_ValueError (a b : poly) (msg : string) :
  floordiv a b <> Raise (ValueError msg).
Proof. simpl. unfold pfloordiv. destruct (rev (pnorm b)); discriminate. Qed.

Lemma catalan_quotient_no_ValueError {R : Type} `{Number R} (f : Z -> R)
    (G : Group) (p h : Z) (msg : string) :
  (forall a b m, floordiv a b <> Raise (ValueError m)) ->
  WGI.coxeter_number G = Ok h ->
  WGI.catalan_quotient f G p h <> Raise (ValueError msg).
Proof.
  intros Hf Hh. destruct (coxeter_number_inv G h Hh) as (ds & Hd & Hmax).
  destruct (Z.eq_dec h 0) as [-> | Hnz].
  - unfold WGI.catalan_quotient. rewrite (degrees_Some G ds Hd), bind_Ok.
    rewrite mapM_factors_zero; [discriminate|].
    destruct ds; [discriminate | discriminate].
  - rewrite (catalan_quotient_eq f G ds p h Hd Hnz). apply Hf.
Qed.

Lemma fmap_no_ValueError {A B : Type} (g : A -> B) (m : result A) (msg : string) :
  m <> Raise (ValueError msg) -> fmap g m <> Raise (ValueError msg).
Proof. destruct m as [a|e]; simpl; [discriminate | congruence]. Qed.

(** C9: the parameter that [fuss_catalan_number] hands to
    [rational_catalan_number] is coprime to the Coxeter number, so the call
    never raises the [ValueError] of the coprimality test. *)
Theorem fuss_catalan_never_invalid_argument
    (G : Group) (h m : Z) (positive polynomial : bool) :
  WGI.coxeter_number G = Ok h ->
  gcd h (if positive then m * h - 1 else m * h + 1) = 1 /\
  forall msg,
    WGI.fuss_catalan_number G m positive polynomial <> Raise (ValueError msg).
Proof.
  intros Hh.
  assert (Hg : gcd h (if positive then m * h - 1 else m * h + 1) = 1).
  { destruct positive; [apply gcd_mul_minus_1 | apply gcd_mul_plus_1]. }
  split; [exact Hg|]. intros msg.
  unfold WGI.fuss_catalan_number. rewrite Hh. simpl.
  unfold WGI.rational_catalan_number. rewrite Hh. simpl.
  rewrite Hg. simpl. destruct polynomial.
  - apply fmap_no_ValueError.
    apply catalan_quotient_no_ValueError; [|exact Hh].
    intros a b m0. apply floordiv_poly_no_ValueError.
  - apply fmap_no_ValueError.
    apply catalan_quotient_no_ValueError; [|exact Hh].
    intros a b m0. apply floordiv_Z_no_ValueError.
Qed.

Lemma fuss_catalan_never_invalid_argument_witness :
  gcd 9 (2 * 9 - 1) = 1 /\
  forall msg,
    WGI.fuss_catalan_number ColoredPermutations_3_3 2 true false
    <> Raise (ValueError msg).
Proof.
  exact (fuss_catalan_never_invalid_argument ColoredPermutations_3_3 9 2 true false
           eq_refl).
Defined.

(** ** The rational Catalan numbers of the sample groups *)

(** On the degrees [3, 6, 9] the Coxeter number is 9, the parameters 5, 7
    and 8 are coprime to it, and the values returned are 4, 10 and 10:
    they are not 7, 12 and 15. *)
Lemma rational_catalan_3_6_9_not_7_12_15 :
  degrees_impl ColoredPermutations_3_3 = Some [3; 6; 9] /\
  WGI.coxeter_number ColoredPermutations_3_3 = Ok 9 /\
  WGI.rational_catalan_number ColoredPermutations_3_3 5 false <> Ok (Integer 7) /\
  WGI.rational_catalan_number ColoredPermutations_3_3 7 false <> Ok (Integer 12) /\
  WGI.rational_catalan_number ColoredPermutations_3_3 8 false <> Ok (Integer 15).
Proof. repeat split; discriminate. Qed.

(** C5, amended: for a group whose degrees are [3, 6, 9], with Coxeter
    number 9, [rational_catalan_number(p)] returns 4 for [p = 5], 10 for
    [p = 7] and 10 for [p = 8], without error since each [p] is coprime to
    9.  The values 7, 12 and 15 are those of [ColoredPermutations(1,3)],
    whose degrees are [2, 3] and whose Coxeter number is 3. *)
Theorem rational_catalan_examples (G : Group) :
  degrees_impl G = Some [3; 6; 9] ->
  (WGI.coxeter_number G = Ok 9 /\
   map (gcd 9) [5; 7; 8] = [1; 1; 1] /\
   map (fun p => WGI.rational_catalan_number G p false) [5; 7; 8]
   = [Ok (Integer 4); Ok (Integer 10); Ok (Integer 10)]) /\
  (WGI.coxeter_number ColoredPermutations_1_3 = Ok 3 /\
   map (gcd 3) [5; 7; 8] = [1; 1; 1] /\
   map (fun p => WGI.rational_catalan_number ColoredPermutations_1_3 p false)
       [5; 7; 8]
   = [Ok (Integer 7); Ok (Integer 12); Ok (Integer 15)]).
Proof.
  intros Hd. split; [|repeat split].
  assert (Hh : WGI.coxeter_number G = Ok 9).
  { now rewrite (coxeter_number_max G _ Hd). }
  repeat split; [exact Hh|].
  unfold WGI.rational_catalan_number. rewrite Hh. simpl.
  rewrite !(catalan_quotient_eq _ G _ _ 9 Hd) by discriminate.
  reflexivity.
Qed.

Lemma rational_catalan_examples_witness :
  (WGI.coxeter_number ColoredPermutations_3_3 = Ok 9 /\
   map (gcd 9) [5; 7; 8] = [1; 1; 1] /\
   map (fun p => WGI.rational_catalan_number ColoredPermutations_3_3 p false)
       [5; 7; 8]
   = [Ok (Integer 4); Ok (Integer 10); Ok (Integer 10)]) /\
  (WGI.coxeter_number ColoredPermutations_1_3 = Ok 3 /\
   map (gcd 3) [5; 7; 8] = [1; 1; 1] /\
   map (fun p => WGI.rational_catalan_number ColoredPermutations_1_3 p false)
       [5; 7; 8]
   = [Ok (Integer 7); Ok (Integer 12); Ok (Integer 15)]).
Proof. exact (rational_catalan_examples ColoredPermutations_3_3 eq_refl). Defined.

(** The remaining docstring values of [rational_catalan_number],
    [fuss_catalan_number] and [catalan_number], with the degrees of
    [ColoredPermutations(2,2)], [2, 4]. *)
Example docstring_values :
  let CP22 := {| degrees_impl := Some [2; 4]; codegrees_impl := Some [2; 0];
                 number_of_simple_reflections := 2;
                 number_of_irreducible_components := 1 |} in
  map (fun p => WGI.rational_catalan_number CP22 p false) [7; 9; 11]
  = [Ok (Integer 10); Ok (Integer 15); Ok (Integer 21)] /\
  WGI.rational_catalan_number ColoredPermutations_1_4 3 true
  = Ok (Polynomial [1; 0; 1; 1; 1; 0; 1]) /\
  WGI.fuss_catalan_number CP22 2 false true
  = Ok (Polynomial [1; 0; 1; 0; 2; 0; 2; 0; 3; 0; 2; 0; 2; 0; 1; 0; 1]) /\
  WGI.catalan_number CP22 false true = Ok (Polynomial [1; 0; 1; 0; 2; 0; 1; 0; 1]) /\
  WGI.rational_catalan_number ColoredPermutations_3_3 3 false
  = Raise (ValueError "parameter p = 3 is not coprime to the Coxeter number 9").
Proof. repeat split. Qed.

(** ** Polynomial arithmetic *)

Lemma coeff_nil (i : nat) : coeff [] i = 0.
Proof. unfold coeff. now destruct i. Qed.

Lemma coeff_cons_0 (a : Z) (p : poly) : coeff (a :: p) 0 = a.
Proof. reflexivity. Qed.

Lemma coeff_cons_S (a : Z) (p : poly) (i : nat) : coeff (a :: p) (S i) = coeff p i.
Proof. reflexivity. Qed.

Lemma coeff_beyond (p : poly) (i : nat) : (List.length p <= i)%nat -> coeff p i = 0.
Proof. intros H. unfold coeff. now apply nth_overflow. Qed.

Lemma coeff_padd (p q : poly) (i : nat) :
  coeff (padd p q) i = coeff p i + coeff q i.
Proof.
  revert q i; induction p as [|a p IH]; intros q i.
  - simpl. now rewrite coeff_nil.
  - destruct q as [|b q].
    + simpl. rewrite coeff_nil. lia.
    + destruct i as [|i]; simpl.
      * reflexivity.
      * rewrite !coeff_cons_S. apply IH.
Qed.

Lemma coeff_pscale (c : Z) (p : poly) (i : nat) :
  coeff (pscale c p) i = c * coeff p i.
Proof.
  revert i; induction p as [|a p IH]; intros i.
  - simpl. rewrite coeff_nil. lia.
  - destruct i as [|i]; simpl; [reflexivity|].
    rewrite !coeff_cons_S. apply IH.
Qed.

Lemma coeff_pmul_0 (a : Z) (p q : poly) :
  coeff (pmul (a :: p) q) 0 = a * coeff q 0.
Proof.
  simpl. rewrite coeff_padd, coeff_pscale, coeff_cons_0. lia.
Qed.

Lemma coeff_pmul_S (a : Z) (p q : poly) (i : nat) :
  coeff (pmul (a :: p) q) (S i) = a * coeff q (S i) + coeff (pmul p q) i.
Proof.
  simpl. now rewrite coeff_padd, coeff_pscale, coeff_cons_S.
Qed.

(** The product only sees the polynomials that its arguments denote. *)
Lemma pmul_peq_r (p q q' : poly) : peq q q' -> peq (pmul p q) (pmul p q').
Proof.
  intros H. induction p as [|a p IH]; intros i.
  - reflexivity.
  - destruct i as [|i].
    + now rewrite !coeff_pmul_0, H.
    + now rewrite !coeff_pmul_S, H, IH.
Qed.

Lemma pmul_zero_l (p q : poly) :
  (forall i, coeff p i = 0) -> forall i, coeff (pmul p q) i = 0.
Proof.
  induction p as [|a p IH]; intros Hp i.
  - apply coeff_nil.
  - assert (Ha : a = 0) by exact (Hp 0%nat).
    assert (Hp' : forall j, coeff p j = 0) by (intros j; exact (Hp (S j))).
    destruct i as [|i].
    + rewrite coeff_pmul_0, Ha. lia.
    + rewrite coeff_pmul_S, Ha, (IH Hp'). lia.
Qed.

Lemma pmul_padd_l (p p' q : poly) (i : nat) :
  coeff (pmul (padd p p') q) i = coeff (pmul p q) i + coeff (pmul p' q) i.
Proof.
  revert p' i; induction p as [|a p IH]; intros p' i.
  - simpl padd. change (pmul [] q) with (@nil Z). rewrite coeff_nil. lia.
  - destruct p' as [|b p'].
    + simpl padd. change (pmul [] q) with (@nil Z). rewrite coeff_nil. lia.
    + change (padd (a :: p) (b :: p')) with ((a + b) :: padd p p').
      destruct i as [|i].
      * rewrite !coeff_pmul_0. lia.
      * rewrite !coeff_pmul_S, IH. lia.
Qed.

Lemma pmul_pscale_l (c : Z) (p q : poly) (i : nat) :
  coeff (pmul (pscale c p) q) i = c * coeff (pmul p q) i.
Proof.
  revert i; induction p as [|a p IH]; intros i.
  - simpl. rewrite coeff_nil. lia.
  - change (pscale c (a :: p)) with ((c * a) :: pscale c p).
    destruct i as [|i].
    + rewrite !coeff_pmul_0. lia.
    + rewrite !coeff_pmul_S, IH. lia.
Qed.

(** [pnorm] keeps the polynomial and leaves no trailing zero. *)
Lemma coeff_pnorm (p : poly) : peq (pnorm p) p.
Proof.
  induction p as [|a p IH]; intros i; [reflexivity|].
  simpl. destruct (pnorm p) as [|b r] eqn:E.
  - destruct (Z.eqb_spec a 0) as [-> | Ha].
    + rewrite coeff_nil. destruct i as [|i]; [reflexivity|].
      rewrite coeff_cons_S, <- IH. now rewrite coeff_nil.
    + destruct i as [|i]; [reflexivity|].
      rewrite !coeff_cons_S, <- IH. reflexivity.
  - destruct i as [|i]; [reflexivity|].
    rewrite !coeff_cons_S. apply IH.
Qed.

Lemma pnorm_last (p : poly) : pnorm p = [] \/ last (pnorm p) 0 <> 0.
Proof.
  induction p as [|a p IH]; [now left|].
  simpl. destruct (pnorm p) as [|b r] eqn:E.
  - destruct (Z.eqb_spec a 0) as [-> | Ha]; [now left | now right].
  - right. destruct IH as [IH | IH]; [discriminate|].
    exact IH.
Qed.

Lemma last_coeff (p : poly) :
  p <> [] -> last p 0 = coeff p (Nat.pred (List.length p)).
Proof.
  intros Hp. destruct (exists_last Hp) as (l & a & ->).
  rewrite last_last, length_app. simpl List.length.
  unfold coeff. replace (Nat.pred (List.length l + 1)) with (List.length l) by lia.
  now rewrite nth_middle.
Qed.

(** A monic polynomial of degree [m] is stored, once normalised, as [m]
    coefficients followed by the leading 1. *)
Lemma pnorm_monic (p : poly) (m : nat) :
  monic_deg p m ->
  exists b0, pnorm p = b0 ++ [1] /\ List.length b0 = m.
Proof.
  intros [H1 H0].
  assert (Hne : pnorm p <> []).
  { intros E. pose proof (coeff_pnorm p m) as C. rewrite E, coeff_nil in C. lia. }
  destruct (exists_last Hne) as (b0 & a & E).
  assert (Ha : a <> 0).
  { destruct (pnorm_last p) as [N | N]; [contradiction|].
    rewrite E, last_last in N. exact N. }
  assert (Hc : forall i, coeff (b0 ++ [a]) i = coeff p i).
  { intros i. rewrite <- E. apply coeff_pnorm. }
  assert (Hlen : List.length b0 = m).
  { destruct (Nat.lt_trichotomy (List.length b0) m) as [L | [L | L]].
    - exfalso. pose proof (Hc m) as C. rewrite H1 in C.
      rewrite coeff_beyond in C; [lia|]. rewrite length_app. simpl. lia.
    - exact L.
    - exfalso. pose proof (Hc (List.length b0)) as C.
      unfold coeff at 1 in C. rewrite nth_middle in C.
      rewrite (H0 _ L) in C. contradiction. }
  exists b0. split; [|exact Hlen].
  rewrite E. f_equal. f_equal.
  pose proof (Hc (List.length b0)) as C.
  unfold coeff at 1 in C. rewrite nth_middle in C. rewrite Hlen in C. lia.
Qed.

(** Degrees add up under the product, and the product of two monic
    polynomials is monic. *)
Lemma pmul_bound (p q : poly) (k m : nat) :
  (forall i, (k < i)%nat -> coeff p i = 0) ->
  (forall i, (m < i)%nat -> coeff q i = 0) ->
  forall i, (k + m < i)%nat -> coeff (pmul p q) i = 0.
Proof.
  revert k; induction p as [|a p IH]; intros k Hp Hq i Hi.
  - apply coeff_nil.
  - destruct i as [|i]; [lia|].
    rewrite coeff_pmul_S, (Hq (S i)) by lia.
    destruct k as [|k].
    + rewrite pmul_zero_l; [lia|].
      intros j. apply (Hp (S j)). lia.
    + rewrite (IH k); [lia | | assumption | lia].
      intros j Hj. apply (Hp (S j)). lia.
Qed.

Lemma pmul_lead (p q : poly) (k m : nat) :
  monic_deg p k -> monic_deg q m -> coeff (pmul p q) (k + m) = 1.
Proof.
  revert k; induction p as [|a p IH]; intros k [Hp1 Hp0] [Hq1 Hq0].
  - rewrite coeff_nil in Hp1. lia.
  - destruct k as [|k].
    + assert (Ha : a = 1) by exact Hp1.
      assert (Hz : forall j, coeff p j = 0).
      { intros j. apply (Hp0 (S j)). lia. }
      simpl Nat.add. destruct m as [|m].
      * rewrite coeff_pmul_0, Ha, Hq1. reflexivity.
      * rewrite coeff_pmul_S, Ha, Hq1, (pmul_zero_l p q Hz). reflexivity.
    + simpl Nat.add. rewrite coeff_pmul_S, (Hq0 (S (k + m))) by lia.
      rewrite (IH k); [lia | | split; assumption].
      split; [exact Hp1|]. intros j Hj. apply (Hp0 (S j)). lia.
Qed.

Lemma pmul_monic (p q : poly) (k m : nat) :
  monic_deg p k -> monic_deg q m -> monic_deg (pmul p q) (k + m).
Proof.
  intros Hp Hq. split.
  - now apply pmul_lead.
  - apply pmul_bound; [apply Hp | apply Hq].
Qed.

Lemma coeff_repeat_1 (n i : nat) :
  coeff (repeat 1 n) i = if (i <? n)%nat then 1 else 0.
Proof.
  revert i; induction n as [|n IH]; intros i.
  - simpl. apply coeff_nil.
  - destruct i as [|i]; [reflexivity|].
    simpl repeat. rewrite coeff_cons_S, IH. reflexivity.
Qed.

(** The q-integer of a positive [n] is monic of degree [n - 1]. *)
Lemma q_int_monic (n : Z) : 0 < n -> monic_deg (q_int n) (Nat.pred (Z.to_nat n)).
Proof.
  intros Hn. unfold q_int. split.
  - rewrite coeff_repeat_1.
    destruct (Nat.ltb_spec (Nat.pred (Z.to_nat n)) (Z.to_nat n)); [reflexivity | lia].
  - intros i Hi. rewrite coeff_repeat_1.
    destruct (Nat.ltb_spec i (Z.to_nat n)); [lia | reflexivity].
Qed.

Lemma fold_left_pmul_monic (l : list poly) (acc : poly) (k : nat) :
  monic_deg acc k ->
  Forall (fun p => exists m, monic_deg p m) l ->
  exists m, monic_deg (fold_left pmul l acc) m.
Proof.
  intros Hacc Hl. revert acc k Hacc.
  induction Hl as [|p l [m Hp] _ IH]; intros acc k Hacc.
  - now exists k.
  - simpl. apply (IH (pmul acc p) (k + m)%nat). now apply pmul_monic.
Qed.

(** The denominator [prod(q_int(deg) for deg in degrees)] is monic. *)
Lemma prod_q_int_monic (ds : list Z) :
  positive_degrees ds -> exists m, monic_deg (prod (map q_int ds)) m.
Proof.
  intros Hpos. unfold prod. simpl.
  apply (fold_left_pmul_monic _ [1] 0%nat).
  - split; [reflexivity|]. intros i Hi. apply coeff_beyond. simpl. lia.
  - unfold positive_degrees in Hpos. induction Hpos as [|d ds Hd _ IH].
    + constructor.
    + constructor; [|exact IH].
      exists (Nat.pred (Z.to_nat d)). now apply q_int_monic.
Qed.

(** ** Long division by a monic polynomial *)

Lemma coeff_repeat_0 (n i : nat) : coeff (repeat 0 n) i = 0.
Proof.
  revert i; induction n as [|n IH]; intros i; simpl.
  - apply coeff_nil.
  - destruct i as [|i]; [reflexivity | apply IH].
Qed.

Lemma coeff_app_lead (b0 : poly) (i : nat) :
  coeff (b0 ++ [1]) i
  = if (i <? List.length b0)%nat then coeff b0 i
    else if (i =? List.length b0)%nat then 1 else 0.
Proof.
  unfold coeff.
  destruct (Nat.ltb_spec i (List.length b0)) as [L | L].
  - now apply app_nth1.
  - destruct (Nat.eqb_spec i (List.length b0)) as [-> | N].
    + now rewrite nth_middle.
    + apply nth_overflow. rewrite length_app. simpl. lia.
Qed.

Lemma app_lead_monic (b0 : poly) : monic_deg (b0 ++ [1]) (List.length b0).
Proof.
  split.
  - rewrite coeff_app_lead, Nat.ltb_irrefl, Nat.eqb_refl. reflexivity.
  - intros i Hi. rewrite coeff_app_lead.
    destruct (Nat.ltb_spec i (List.length b0)); [lia|].
    destruct (Nat.eqb_spec i (List.length b0)); [lia | reflexivity].
Qed.

(** One step of the division subtracts [c] times the divisor, coefficient
    by coefficient, below the leading term. *)
Lemma coeff_subtract (c : Z) (t b0 : poly) (i : nat) :
  coeff (map (fun tb => fst tb - c * snd tb) (combine t b0)) i
  = if (i <? Nat.min (List.length t) (List.length b0))%nat
    then coeff t i - c * coeff b0 i else 0.
Proof.
  revert b0 i; induction t as [|x t IH]; intros b0 i.
  - simpl. apply coeff_nil.
  - destruct b0 as [|b b0].
    + simpl. apply coeff_nil.
    + destruct i as [|i]; [reflexivity|].
      simpl combine. simpl map. rewrite !coeff_cons_S, IH. reflexivity.
Qed.

Lemma pdivmod_cons (x : Z) (a b0 : poly) (lead : Z) :
  pdivmod (x :: a) b0 lead
  = let qr := pdivmod a b0 lead in
    let t := x :: snd qr in
    let c := last t 0 / lead in
    (c :: fst qr, map (fun tb => fst tb - c * snd tb) (combine t b0)).
Proof. simpl. now destruct (pdivmod a b0 lead). Qed.

Lemma pdivmod_length (a b0 : poly) (lead : Z) :
  List.length (snd (pdivmod a b0 lead)) = List.length b0.
Proof.
  induction a as [|x a IH].
  - simpl. apply repeat_length.
  - rewrite pdivmod_cons. cbv zeta. cbn [snd].
    rewrite length_map, length_combine. simpl List.length. rewrite IH. lia.
Qed.

(** Dividend = quotient * divisor + remainder, for a monic divisor. *)
Lemma pdivmod_spec (a b0 : poly) (i : nat) :
  coeff a i
  = coeff (pmul (fst (pdivmod a b0 1)) (b0 ++ [1])) i
    + coeff (snd (pdivmod a b0 1)) i.
Proof.
  revert i; induction a as [|x a IH]; intros i.
  - simpl. rewrite coeff_nil, coeff_repeat_0. reflexivity.
  - rewrite pdivmod_cons. cbv zeta. cbn [fst snd].
    pose proof (pdivmod_length a b0 1) as Hlen.
    set (qt := fst (pdivmod a b0 1)) in *.
    set (r := snd (pdivmod a b0 1)) in *.
    set (m := List.length b0) in *.
    rewrite Z.div_1_r.
    assert (Hc : last (x :: r) 0 = coeff (x :: r) m).
    { rewrite last_coeff by discriminate. simpl List.length.
      rewrite Hlen. reflexivity. }
    rewrite Hc. set (c := coeff (x :: r) m).
    assert (Hmin : Nat.min (List.length (x :: r)) (List.length b0) = m).
    { simpl List.length. rewrite Hlen. fold m. lia. }
    destruct i as [|i].
    + rewrite coeff_pmul_0, coeff_subtract, Hmin, coeff_app_lead. fold m.
      rewrite !coeff_cons_0.
      destruct (Nat.ltb_spec 0 m) as [L | L]; [lia|].
      assert (E : m = 0%nat) by lia.
      destruct (Nat.eqb_spec 0 m) as [_ | N]; [|lia].
      unfold c. rewrite E, coeff_cons_0. lia.
    + rewrite coeff_pmul_S, coeff_subtract, Hmin, coeff_app_lead. fold m.
      rewrite !coeff_cons_S, (IH i). fold qt r.
      destruct (Nat.ltb_spec (S i) m) as [L | L]; [lia|].
      destruct (Nat.eqb_spec (S i) m) as [E | N].
      * unfold c. rewrite <- E, coeff_cons_S. lia.
      * rewrite (coeff_beyond r i) by lia. lia.
Qed.

(** A multiple of a monic polynomial of degree [m] that has degree below
    [m] is the zero multiple. *)
Lemma monic_mul_small (B : poly) (m : nat) :
  monic_deg B m ->
  forall (D : poly) (rf : nat -> Z),
    (forall i, (m <= i)%nat -> rf i = 0) ->
    (forall i, coeff (pmul D B) i = rf i) ->
    forall i, coeff D i = 0.
Proof.
  intros [HB1 HB0]. induction D as [|d D IH]; intros rf Hrf H i.
  - apply coeff_nil.
  - assert (HD : forall j, coeff D j = 0).
    { apply (IH (fun j => rf (S j) - d * coeff B (S j))).
      - intros j Hj. rewrite (Hrf (S j)), (HB0 (S j)) by lia. lia.
      - intros j. rewrite <- (H (S j)), coeff_pmul_S. lia. }
    assert (Hd : d = 0).
    { destruct m as [|k].
      - pose proof (H 0%nat) as H0. rewrite coeff_pmul_0, HB1, Hrf in H0; lia.
      - pose proof (H (S k)) as Hk.
        rewrite coeff_pmul_S, HB1, (pmul_zero_l D B HD), Hrf in Hk; lia. }
    destruct i as [|i]; [exact Hd | apply HD].
Qed.

(** The division returns the exact quotient when there is one. *)
Lemma pdivmod_exact (a b0 Q : poly) :
  peq a (pmul Q (b0 ++ [1])) -> peq (fst (pdivmod a b0 1)) Q.
Proof.
  intros Ha i.
  set (qt := fst (pdivmod a b0 1)).
  set (r := snd (pdivmod a b0 1)).
  assert (HD : forall j, coeff (padd Q (pscale (-1) qt)) j = 0).
  { apply (monic_mul_small (b0 ++ [1]) (List.length b0) (app_lead_monic b0)
             _ (coeff r)).
    - intros j Hj. apply coeff_beyond. unfold r. now rewrite pdivmod_length.
    - intros j. rewrite pmul_padd_l, pmul_pscale_l, <- (Ha j).
      rewrite (pdivmod_spec a b0 j). fold qt r. lia. }
  specialize (HD i). rewrite coeff_padd, coeff_pscale in HD. lia.
Qed.

Lemma pnorm_zero (p : poly) : (forall i, coeff p i = 0) -> pnorm p = [].
Proof.
  induction p as [|a p IH]; intros H; [reflexivity|].
  simpl. rewrite IH by (intros i; exact (H (S i))).
  pose proof (H 0%nat) as H0. rewrite coeff_cons_0 in H0. now rewrite H0.
Qed.

(** Coefficient lists of the same polynomial have the same normal form. *)
Lemma pnorm_peq (p q : poly) : peq p q -> pnorm p = pnorm q.
Proof.
  revert q; induction p as [|a p IH]; intros q H.
  - symmetry. apply pnorm_zero. intros i. rewrite <- H. apply coeff_nil.
  - destruct q as [|b q].
    + apply pnorm_zero. intros i. rewrite H. apply coeff_nil.
    + pose proof (H 0%nat) as H0. rewrite !coeff_cons_0 in H0. subst b.
      simpl. rewrite (IH q); [reflexivity|].
      intros i. exact (H (S i)).
Qed.

(** [//] by a monic polynomial never fails. *)
Lemma pfloordiv_monic (a d : poly) (m : nat) :
  monic_deg d m ->
  exists b0, pnorm d = b0 ++ [1] /\
             pfloordiv a d = Ok (pnorm (fst (pdivmod a b0 1))).
Proof.
  intros Hd. destruct (pnorm_monic d m Hd) as (b0 & E & _).
  exists b0. split; [exact E|].
  unfold pfloordiv. rewrite E, rev_app_distr. simpl. now rewrite rev_involutive.
Qed.

(** [//] by a monic polynomial undoes the multiplication by it. *)
Lemma pfloordiv_exact (a d Q : poly) (m : nat) :
  monic_deg d m -> peq a (pmul Q d) -> pfloordiv a d = Ok (pnorm Q).
Proof.
  intros Hd Ha. destruct (pfloordiv_monic a d m Hd) as (b0 & E & ->).
  f_equal. apply pnorm_peq, pdivmod_exact.
  intros i. rewrite (Ha i). apply pmul_peq_r.
  intros j. rewrite <- E. symmetry. apply coeff_pnorm.
Qed.

(** ** The rational Catalan number *)

(** Past the coprimality test, [rational_catalan_number] is the quotient
    of the two products. *)
Lemma rational_catalan_number_coprime (G : Group) (ds : list Z) (h p : Z) :
  degrees_impl G = Some ds ->
  WGI.coxeter_number G = Ok h ->
  h <> 0 ->
  gcd h p = 1 ->
  WGI.rational_catalan_number G p false
  = fmap Integer (floordiv (prod (map (fun d => p + (p * (d - 1)) mod h) ds))
                           (prod ds)) /\
  WGI.rational_catalan_number G p true
  = fmap Polynomial
      (floordiv (prod (map (fun d => q_int (p + (p * (d - 1)) mod h)) ds))
                (prod (map q_int ds))).
Proof.
  intros Hd Hh Hnz Hg.
  split; unfold WGI.rational_catalan_number;
    rewrite Hh, bind_Ok, Hg; cbn [Z.eqb Pos.eqb negb];
    rewrite (catalan_quotient_eq _ G ds p h Hd Hnz).
  - now rewrite map_id_Z.
  - reflexivity.
Qed.

Lemma positive_prod_nonzero (ds : list Z) : positive_degrees ds -> prod ds <> 0.
Proof.
  intros H. apply prod_Z_nonzero.
  unfold positive_degrees in H. rewrite Forall_forall in *.
  intros d Hd. specialize (H d Hd). lia.
Qed.

(** On positive degrees both quotients are defined. *)
Lemma rational_catalan_number_value (G : Group) (ds : list Z) (h p : Z) :
  degrees_impl G = Some ds ->
  positive_degrees ds ->
  WGI.coxeter_number G = Ok h ->
  gcd h p = 1 ->
  WGI.rational_catalan_number G p false
  = Ok (Integer (prod (map (fun d => p + (p * (d - 1)) mod h) ds) / prod ds)) /\
  exists quo,
    pfloordiv (prod (map (fun d => q_int (p + (p * (d - 1)) mod h)) ds))
              (prod (map q_int ds)) = Ok quo /\
    WGI.rational_catalan_number G p true = Ok (Polynomial quo).
Proof.
  intros Hd Hpos Hh Hg.
  assert (Hnz : h <> 0).
  { rewrite (coxeter_number_max G ds Hd) in Hh.
    pose proof (max_positive ds h Hpos Hh). lia. }
  destruct (rational_catalan_number_coprime G ds h p Hd Hh Hnz Hg) as [Ei Ep].
  pose proof (positive_prod_nonzero ds Hpos) as Hden.
  destruct (prod_q_int_monic ds Hpos) as [m Hm].
  split.
  - rewrite Ei. simpl.
    destruct (Z.eqb_spec (prod ds) 0) as [E0 | _]; [contradiction | reflexivity].
  - destruct (pfloordiv_monic
                (prod (map (fun d => q_int (p + (p * (d - 1)) mod h)) ds))
                (prod (map q_int ds)) m Hm) as (b0 & _ & E).
    eexists. split; [exact E|].
    rewrite Ep. simpl. now rewrite E.
Qed.




(** The premise of the exactness clauses holds on the docstring example:
    the numerator [120] is [5 * 24], and the product of the q-integers of
    6, 5 and 4 is [q^6 + q^4 + q^3 + q^2 + 1] times that of 2, 3 and 4. *)
Example exact_division_ColoredPermutations_1_4 :
  5 * prod [2; 3; 4] = prod (map (fun d => 3 + (3 * (d - 1)) mod 4) [2; 3; 4]) /\
  prod (map (fun d => q_int (3 + (3 * (d - 1)) mod 4)) [2; 3; 4])
  = pmul [1; 0; 1; 1; 1; 0; 1] (prod (map q_int [2; 3; 4])).
Proof. split; reflexivity. Qed.

(** C2: [rational_catalan_number(p, ...)] raises the [ValueError] of the
    coprimality test exactly when [gcd(p, h) != 1]; its message names [p]
    and [h]; no value is returned then, and a value is returned whenever
    [gcd(p, h) = 1]. *)
Theorem rational_catalan_invalid_argument
    (G : Group) (ds : list Z) (h p : Z) (polynomial : bool) :
  degrees_impl G = Some ds ->
  positive_degrees ds ->
  WGI.coxeter_number G = Ok h ->
  (gcd p h <> 1 ->
     WGI.rational_catalan_number G p polynomial
     = Raise (ValueError (WGI.not_coprime_message p h))) /\
  (gcd p h = 1 ->
     exists v, WGI.rational_catalan_number G p polynomial = Ok v) /\
  ((exists msg, WGI.rational_catalan_number G p polynomial
                = Raise (ValueError msg)) <-> gcd p h <> 1) /\
  (exists pre mid : string,
     WGI.not_coprime_message p h = (pre ++ str p ++ mid ++ str h)%string).
Proof.
  intros Hd Hpos Hh.
  assert (Hbad : gcd p h <> 1 ->
                 WGI.rational_catalan_number G p polynomial
                 = Raise (ValueError (WGI.not_coprime_message p h))).
  { intros Hg. unfold WGI.rational_catalan_number. rewrite Hh, bind_Ok.
    destruct (Z.eqb_spec (gcd h p) 1) as [E | _]; [|reflexivity].
    exfalso. apply Hg. unfold gcd in *. now rewrite Z.gcd_comm. }
  assert (Hgood : gcd p h = 1 ->
                  exists v, WGI.rational_catalan_number G p polynomial = Ok v).
  { intros Hg.
    assert (Hg' : gcd h p = 1) by (unfold gcd in *; now rewrite Z.gcd_comm).
    destruct (rational_catalan_number_value G ds h p Hd Hpos Hh Hg')
      as (Hi & quo & _ & Hq).
    destruct polynomial; eauto. }
  repeat split.
  - exact Hbad.
  - exact Hgood.
  - intros [msg Hmsg] Hg. destruct (Hgood Hg) as [v Hv]. congruence.
  - intros Hg. eexists. now apply Hbad.
  - exists "parameter p = "%string, " is not coprime to the Coxeter number "%string.
    reflexivity.
Qed.

Lemma rational_catalan_invalid_argument_witness :
  WGI.rational_catalan_number ColoredPermutations_3_3 3 false
  = Raise (ValueError "parameter p = 3 is not coprime to the Coxeter number 9") /\
  exists v, WGI.rational_catalan_number ColoredPermutations_3_3 5 true = Ok v.
Proof.
  assert (Hpos : positive_degrees [3; 6; 9]).
  { unfold positive_degrees. repeat constructor. }
  split.
  - apply (rational_catalan_invalid_argument ColoredPermutations_3_3 [3; 6; 9] 9 3
             false eq_refl Hpos eq_refl).
    intros H. vm_compute in H. discriminate H.
  - apply (rational_catalan_invalid_argument ColoredPermutations_3_3 [3; 6; 9] 9 5
             true eq_refl Hpos eq_refl).
    reflexivity.
Defined.

(** * Further properties of the methods *)

(** ** The Coxeter number of a well-generated irreducible group *)

Lemma max_of_bound (ds : list Z) (h : Z) :
  In h ds -> Forall (fun d => d <= h) ds -> max ds = Ok h.
Proof.
  intros Hin Hall. destruct ds as [|x l]; [contradiction|].
  simpl. f_equal.
  destruct (fold_left_max_ge l x) as [H1 H2].
  assert (Hle : h <= fold_left Z.max l x).
  { destruct Hin as [<- | Hin]; [exact H1|].
    rewrite Forall_forall in H2. now apply H2. }
  assert (Hge : fold_left Z.max l x <= h).
  { rewrite Forall_forall in Hall.
    destruct (fold_left_max_In l x) as [E | Hi].
    - rewrite E. apply Hall. now left.
    - apply Hall. now right. }
  lia.
Qed.

(** X1: [coxeter_number()] returns [h] exactly when the degrees are
    implemented, [h] is one of them and no degree exceeds it. *)
Theorem coxeter_number_is_greatest_degree (G : Group) (h : Z) :
  WGI.coxeter_number G = Ok h <->
  exists ds, degrees_impl G = Some ds /\ In h ds /\ Forall (fun d => d <= h) ds.
Proof.
  split.
  - intros H. destruct (coxeter_number_inv G h H) as (ds & Hd & Hmax).
    exists ds. split; [exact Hd|]. now apply max_spec.
  - intros (ds & Hd & Hin & Hall).
    rewrite (coxeter_number_max G ds Hd). now apply max_of_bound.
Qed.

Lemma sorted_le_last (ds : list Z) :
  Sorted Z.le ds -> Forall (fun d => d <= last ds 0) ds.
Proof.
  intros Hs. apply Sorted_StronglySorted in Hs; [|intros x y z; apply Z.le_trans].
  induction Hs as [|a l Hs IH Ha].
  - constructor.
  - destruct l as [|b l'].
    + constructor; [simpl; lia | constructor].
    + change (last (a :: b :: l') 0) with (last (b :: l') 0).
      constructor; [|exact IH].
      inversion Ha as [|? ? Hab _]; subst.
      inversion IH as [|? ? Hb _]; subst. lia.
Qed.

Lemma last_In (ds : list Z) : ds <> [] -> In (last ds 0) ds.
Proof.
  intros H. destruct (exists_last H) as (l & a & ->).
  rewrite last_last. apply in_or_app. right. now left.
Qed.

(** X2: when the degrees come in increasing order, as [degrees()]
    documents, the Coxeter number is the last degree. *)
Theorem coxeter_number_last_degree (G : Group) (ds : list Z) :
  degrees_impl G = Some ds ->
  ds <> [] ->
  Sorted Z.le ds ->
  WGI.coxeter_number G = Ok (last ds 0).
Proof.
  intros Hd Hne Hs. rewrite (coxeter_number_max G ds Hd).
  apply max_of_bound; [now apply last_In | now apply sorted_le_last].
Qed.

Lemma coxeter_number_last_degree_witness :
  WGI.coxeter_number ColoredPermutations_2_4 = Ok 8.
Proof.
  apply (coxeter_number_last_degree ColoredPermutations_2_4 [2; 4; 6; 8]).
  - reflexivity.
  - discriminate.
  - repeat constructor; discriminate.
Defined.

(** ** The Coxeter number of an irreducible group *)

(** X3: in the general formula the two occurrences of the rank cancel:
    on degrees [ds] (not empty) and codegrees [cs] the method returns
    [(sum(cs) + sum(ds)) // len(ds)], whatever the lists are. *)
Theorem irreducible_coxeter_number_sums (G : Group) (ds cs : list Z) :
  degrees_impl G = Some ds ->
  codegrees_impl G = Some cs ->
  ds <> [] ->
  Irr.coxeter_number G = Ok ((sum cs + sum ds) / len ds).
Proof.
  intros Hd Hc Hne.
  unfold Irr.coxeter_number, Base.number_of_reflecting_hyperplanes,
    Base.number_of_reflections.
  rewrite (codegrees_Some G cs Hc), (degrees_Some G ds Hd), (rank_Some G ds Hd).
  simpl.
  destruct (Z.eqb_spec (len ds) 0) as [E0 | _].
  - exfalso. destruct ds; [contradiction|].
    unfold len in E0. simpl List.length in E0. lia.
  - do 2 f_equal. lia.
Qed.

Lemma irreducible_coxeter_number_sums_witness :
  Irr.coxeter_number ReflectionGroup_4_2_3 = Ok 10.
Proof.
  apply (irreducible_coxeter_number_sums ReflectionGroup_4_2_3 [4; 6; 8] [8; 4; 0]).
  - reflexivity.
  - reflexivity.
  - discriminate.
Defined.

(** X4: how the general formula fails.  The codegrees are asked for first,
    so a parent without [codegrees] fails on them even when it has no
    [degrees] either; with codegrees but no degrees it fails on the
    degrees; and on a parent of rank 0 the division by the rank raises
    [ZeroDivisionError].  It returns a value in no other case. *)
Theorem irreducible_coxeter_number_errors (G : Group) :
  (codegrees_impl G = None ->
   Irr.coxeter_number G = Raise (Unsupported "codegrees")) /\
  (codegrees_impl G <> None -> degrees_impl G = None ->
   Irr.coxeter_number G = Raise (Unsupported "degrees")) /\
  (codegrees_impl G <> None -> degrees_impl G = Some [] ->
   Irr.coxeter_number G = Raise ZeroDivisionError) /\
  ((exists h, Irr.coxeter_number G = Ok h) <->
   (exists ds cs, degrees_impl G = Some ds /\ codegrees_impl G = Some cs /\
                  ds <> [])).
Proof.
  unfold Irr.coxeter_number, Base.number_of_reflecting_hyperplanes,
    Base.number_of_reflections, Base.rank, Base.codegrees, Base.degrees.
  destruct (codegrees_impl G) as [cs|]; destruct (degrees_impl G) as [ds|];
    simpl; repeat split; try congruence; try discriminate.
  - intros _ [= ->]. reflexivity.
  - intros [h Hh]. exists ds, cs. repeat split.
    intros ->. discriminate Hh.
  - intros (ds' & cs' & [= <-] & _ & Hne).
    destruct (Z.eqb_spec (len ds) 0) as [E0 | _]; [|eauto].
    destruct ds; [contradiction|].
    unfold len in E0. simpl List.length in E0. lia.
  - intros [h Hh]. discriminate Hh.
  - intros (ds' & cs' & [= ] & _).
  - intros [h Hh]. discriminate Hh.
  - intros (ds' & cs' & _ & [= ] & _).
  - intros [h Hh]. discriminate Hh.
  - intros (ds' & cs' & [= ] & _).
Qed.

Lemma irreducible_coxeter_number_errors_witness :
  Irr.coxeter_number bare_parent = Raise (Unsupported "codegrees") /\
  Irr.coxeter_number trivial_parent = Raise ZeroDivisionError /\
  exists h, Irr.coxeter_number ReflectionGroup_4_2_3 = Ok h.
Proof.
  split; [|split].
  - apply (irreducible_coxeter_number_errors bare_parent). reflexivity.
  - apply (irreducible_coxeter_number_errors trivial_parent).
    + discriminate.
    + reflexivity.
  - apply (irreducible_coxeter_number_errors ReflectionGroup_4_2_3).
    exists [4; 6; 8], [8; 4; 0]. repeat split. discriminate.
Defined.

(** ** Parents without degrees, and parents of rank 0 *)

(** X5: on a parent that does not implement [degrees], every method that
    needs them fails on [degrees] and returns nothing: the counts, the
    predicates, the Coxeter number and every Catalan number, for all
    arguments. *)
Theorem methods_need_degrees (G : Group) :
  degrees_impl G = None ->
  Base.rank G = Raise (Unsupported "degrees") /\
  Base.number_of_reflections G = Raise (Unsupported "degrees") /\
  Base.cardinality G = Raise (Unsupported "degrees") /\
  Base.is_well_generated G = Raise (Unsupported "degrees") /\
  Base.is_real G = Raise (Unsupported "degrees") /\
  WG._test_well_generated G = Errored (Unsupported "degrees") /\
  WGI.coxeter_number G = Raise (Unsupported "degrees") /\
  WGI.number_of_reflections_of_full_support G = Raise (Unsupported "degrees") /\
  (forall p polynomial,
     WGI.rational_catalan_number G p polynomial = Raise (Unsupported "degrees")) /\
  (forall m positive polynomial,
     WGI.fuss_catalan_number G m positive polynomial
     = Raise (Unsupported "degrees")) /\
  (forall positive polynomial,
     WGI.catalan_number G positive polynomial = Raise (Unsupported "degrees")).
Proof.
  intros Hd.
  unfold WGI.catalan_number, WGI.fuss_catalan_number, WGI.rational_catalan_number,
    WGI.number_of_reflections_of_full_support, WGI.coxeter_number,
    WG._test_well_generated, Base.is_real, Base.is_well_generated,
    Base.cardinality, Base.number_of_reflections, Base.rank, Base.degrees.
  rewrite Hd. repeat split.
Qed.

Lemma methods_need_degrees_witness :
  Base.rank bare_parent = Raise (Unsupported "degrees") /\
  Base.number_of_reflections bare_parent = Raise (Unsupported "degrees") /\
  Base.cardinality bare_parent = Raise (Unsupported "degrees") /\
  Base.is_well_generated bare_parent = Raise (Unsupported "degrees") /\
  Base.is_real bare_parent = Raise (Unsupported "degrees") /\
  WG._test_well_generated bare_parent = Errored (Unsupported "degrees") /\
  WGI.coxeter_number bare_parent = Raise (Unsupported "degrees") /\
  WGI.number_of_reflections_of_full_support bare_parent
  = Raise (Unsupported "degrees") /\
  (forall p polynomial,
     WGI.rational_catalan_number bare_parent p polynomial
     = Raise (Unsupported "degrees")) /\
  (forall m positive polynomial,
     WGI.fuss_catalan_number bare_parent m positive polynomial
     = Raise (Unsupported "degrees")) /\
  (forall positive polynomial,
     WGI.catalan_number bare_parent positive polynomial
     = Raise (Unsupported "degrees")).
Proof. exact (methods_need_degrees bare_parent eq_refl). Defined.

(** X6: on a parent of rank 0, whose list of degrees is empty, the rank is
    0, the cardinality is the empty product 1 and there is no reflection;
    [max] of the empty list raises [ValueError], so the well-generated
    Coxeter number and everything computed from it fail with that error,
    before any coprimality test and for every argument. *)
Theorem rank_zero_parent (G : Group) :
  degrees_impl G = Some [] ->
  let empty_max := ValueError "max() arg is an empty sequence" in
  Base.rank G = Ok 0 /\
  Base.cardinality G = Ok 1 /\
  Base.number_of_reflections G = Ok 0 /\
  WGI.coxeter_number G = Raise empty_max /\
  WGI.number_of_reflections_of_full_support G = Raise empty_max /\
  (forall p polynomial,
     WGI.rational_catalan_number G p polynomial = Raise empty_max) /\
  (forall m positive polynomial,
     WGI.fuss_catalan_number G m positive polynomial = Raise empty_max) /\
  (forall positive polynomial,
     WGI.catalan_number G positive polynomial = Raise empty_max).
Proof.
  intros Hd empty_max.
  unfold WGI.catalan_number, WGI.fuss_catalan_number, WGI.rational_catalan_number,
    WGI.number_of_reflections_of_full_support, WGI.coxeter_number,
    Base.cardinality, Base.number_of_reflections, Base.rank, Base.degrees.
  rewrite Hd. repeat split.
Qed.

Lemma rank_zero_parent_witness :
  let empty_max := ValueError "max() arg is an empty sequence" in
  Base.rank trivial_parent = Ok 0 /\
  Base.cardinality trivial_parent = Ok 1 /\
  Base.number_of_reflections trivial_parent = Ok 0 /\
  WGI.coxeter_number trivial_parent = Raise empty_max /\
  WGI.number_of_reflections_of_full_support trivial_parent = Raise empty_max /\
  (forall p polynomial,
     WGI.rational_catalan_number trivial_parent p polynomial = Raise empty_max) /\
  (forall m positive polynomial,
     WGI.fuss_catalan_number trivial_parent m positive polynomial
     = Raise empty_max) /\
  (forall positive polynomial,
     WGI.catalan_number trivial_parent positive polynomial = Raise empty_max).
Proof. exact (rank_zero_parent trivial_parent eq_refl). Defined.

(** ** The well-generatedness test *)

(** X7: [_test_well_generated] passes exactly when the general
    [is_well_generated()] would return [True]; its assertion fails, naming
    the number of simple reflections and the rank, exactly when the general
    method would return [False]; and it ends in the error that the general
    method raises.  The overriding [is_well_generated()] answers [True] in
    all three cases. *)
Theorem test_well_generated_checks_general_method (G : Group) :
  (WG._test_well_generated G = Passed <-> Base.is_well_generated G = Ok true) /\
  (forall a b,
     WG._test_well_generated G = AssertionError a b <->
     Base.is_well_generated G = Ok false /\
     a = number_of_simple_reflections G /\ Base.rank G = Ok b) /\
  (forall e,
     WG._test_well_generated G = Errored e <->
     Base.is_well_generated G = Raise e) /\
  WG.is_well_generated G = Ok true.
Proof.
  unfold WG._test_well_generated, Base.is_well_generated.
  destruct (Base.rank G) as [n | e0]; simpl.
  - destruct (number_of_simple_reflections G =? n) eqn:E; repeat split;
      try discriminate; try congruence.
    + intros (H & _). discriminate H.
    + intros (_ & -> & [= ->]). reflexivity.
  - repeat split; try discriminate; try congruence.
    intros (H & _). discriminate H.
Qed.

Example test_well_generated_on_samples :
  WG._test_well_generated ColoredPermutations_3_3 = Passed /\
  WG._test_well_generated ReflectionGroup_4_2_3 = AssertionError 4 3 /\
  WG.is_well_generated ReflectionGroup_4_2_3 = Ok true.
Proof. repeat split. Qed.

(** ** Bounds on the counts *)

Lemma positive_sum_prod (ds : list Z) :
  positive_degrees ds -> 1 <= prod ds /\ 0 <= sum ds - len ds <= prod ds - 1.
Proof.
  induction 1 as [|d ds Hd _ IH].
  - change (1 <= 1 /\ 0 <= 0 - 0 <= 1 - 1). lia.
  - rewrite sum_cons, prod_Z_cons. unfold len in *. simpl List.length.
    rewrite Nat2Z.inj_succ.
    set (n := Z.of_nat (List.length ds)) in *.
    assert (H1 : 0 <= d * (prod ds - 1 - (sum ds - n)))
      by (apply Z.mul_nonneg_nonneg; lia).
    assert (H2 : 0 <= (d - 1) * (sum ds - n))
      by (apply Z.mul_nonneg_nonneg; lia).
    lia.
Qed.

(** X8: when the degrees are positive the cardinality is at least 1 and
    the number of reflections lies between 0 and the cardinality minus 1:
    the count never exceeds the number of non-identity elements. *)
Theorem reflections_fewer_than_elements (G : Group) (ds : list Z) :
  degrees_impl G = Some ds ->
  positive_degrees ds ->
  exists l n,
    Base.cardinality G = Ok l /\ Base.number_of_reflections G = Ok n /\
    1 <= l /\ 0 <= n <= l - 1.
Proof.
  intros Hd Hpos. exists (prod ds), (sum ds - len ds).
  destruct (positive_sum_prod ds Hpos) as [H1 H2].
  repeat split; try lia.
  - unfold Base.cardinality. now rewrite (degrees_Some G ds Hd).
  - unfold Base.number_of_reflections.
    now rewrite (degrees_Some G ds Hd), (rank_Some G ds Hd).
Qed.

Lemma reflections_fewer_than_elements_witness :
  exists l n,
    Base.cardinality ReflectionGroup_4_2_3 = Ok l /\
    Base.number_of_reflections ReflectionGroup_4_2_3 = Ok n /\
    1 <= l /\ 0 <= n <= l - 1.
Proof.
  apply (reflections_fewer_than_elements ReflectionGroup_4_2_3 [4; 6; 8]).
  - reflexivity.
  - unfold positive_degrees. repeat constructor.
Defined.

(** ** Reflections of full support: when it is defined, and what it drops *)

Lemma full_support_value (G : Group) (ds cs : list Z) (h : Z) :
  degrees_impl G = Some ds ->
  codegrees_impl G = Some cs ->
  max ds = Ok h ->
  prod ds <> 0 ->
  WGI.number_of_reflections_of_full_support G
  = Ok (len ds * h * prod (but_last cs) / prod ds).
Proof.
  intros Hd Hc Hh Hl.
  unfold WGI.number_of_reflections_of_full_support, Base.cardinality.
  rewrite (rank_Some G ds Hd), (coxeter_number_max G ds Hd), Hh,
    (degrees_Some G ds Hd), (codegrees_Some G cs Hc).
  simpl. destruct (Z.eqb_spec (prod ds) 0); [contradiction | reflexivity].
Qed.

(** X9: [number_of_reflections_of_full_support()] returns a value exactly
    when degrees and codegrees are implemented, the degrees are not empty
    and the cardinality is not 0.  With degrees but no codegrees it fails
    on the codegrees; with a cardinality of 0 the final division raises
    [ZeroDivisionError]. *)
Theorem full_support_defined (G : Group) :
  ((exists v, WGI.number_of_reflections_of_full_support G = Ok v) <->
   (exists ds cs, degrees_impl G = Some ds /\ codegrees_impl G = Some cs /\
                  ds <> [] /\ prod ds <> 0)) /\
  (forall ds, degrees_impl G = Some ds -> ds <> [] ->
     codegrees_impl G = None ->
     WGI.number_of_reflections_of_full_support G
     = Raise (Unsupported "codegrees")) /\
  (forall ds, degrees_impl G = Some ds -> ds <> [] ->
     codegrees_impl G <> None -> prod ds = 0 ->
     WGI.number_of_reflections_of_full_support G = Raise ZeroDivisionError).
Proof.
  unfold WGI.number_of_reflections_of_full_support, WGI.coxeter_number,
    Base.cardinality, Base.rank, Base.codegrees, Base.degrees.
  destruct (degrees_impl G) as [[|d ds]|]; simpl;
    [| destruct (codegrees_impl G) as [cs|]; simpl;
       [destruct (Z.eqb_spec (prod (d :: ds)) 0) as [E0 | N0] |] |];
    (split; [split | split]).
  all: try (intros [v Hv]; discriminate Hv).
  all: try (intros (ds' & cs' & H1 & H2 & H3 & H4); congruence).
  all: try (intros ds' H1 H2 H3; congruence).
  all: try (intros ds' H1 H2 H3 H4; congruence).
  - intros _. exists (d :: ds), cs. repeat split; [discriminate | exact N0].
  - intros _. eauto.
Qed.

Lemma full_support_defined_witness :
  (exists v, WGI.number_of_reflections_of_full_support ColoredPermutations_3_3
             = Ok v) /\
  WGI.number_of_reflections_of_full_support
    {| degrees_impl := Some [2; 3]; codegrees_impl := None;
       number_of_simple_reflections := 2;
       number_of_irreducible_components := 1 |}
  = Raise (Unsupported "codegrees") /\
  WGI.number_of_reflections_of_full_support
    {| degrees_impl := Some [0; 3]; codegrees_impl := Some [3; 0];
       number_of_simple_reflections := 2;
       number_of_irreducible_components := 1 |}
  = Raise ZeroDivisionError.
Proof.
  split; [|split].
  - apply (full_support_defined ColoredPermutations_3_3).
    exists [3; 6; 9], [6; 3; 0]. repeat split; discriminate.
  - apply (full_support_defined _) with (ds := [2; 3]).
    + reflexivity.
    + discriminate.
    + reflexivity.
  - apply (full_support_defined _) with (ds := [0; 3]).
    + reflexivity.
    + discriminate.
    + discriminate.
    + reflexivity.
Defined.

(** X10: in rank 1, with the single degree [d] (not 0) and a single
    codegree, the codegree is dropped, the product is empty and the method
    returns [1 * d * 1 // d = 1]. *)
Theorem full_support_rank_one (G : Group) (d c : Z) :
  degrees_impl G = Some [d] ->
  codegrees_impl G = Some [c] ->
  d <> 0 ->
  WGI.number_of_reflections_of_full_support G = Ok 1.
Proof.
  intros Hd Hc Hnz.
  rewrite (full_support_value G [d] [c] d Hd Hc eq_refl).
  - f_equal. change (1 * d * 1 / (1 * d) = 1).
    rewrite Z.mul_1_r. apply Z.div_same. lia.
  - change (1 * d <> 0). lia.
Qed.

Lemma full_support_rank_one_witness :
  WGI.number_of_reflections_of_full_support
    {| degrees_impl := Some [3]; codegrees_impl := Some [0];
       number_of_simple_reflections := 1;
       number_of_irreducible_components := 1 |} = Ok 1.
Proof.
  apply (full_support_rank_one _ 3 0).
  - reflexivity.
  - reflexivity.
  - discriminate.
Defined.

Lemma dual_codegrees (ds cs : list Z) (h : Z) :
  degrees_codegrees_dual ds cs h -> cs = map (fun d => h - d) ds.
Proof.
  induction 1 as [|d c ds cs Hdc _ IH]; [reflexivity|].
  simpl. rewrite <- IH. f_equal. lia.
Qed.

Lemma removelast_map_Z (f : Z -> Z) (l : list Z) :
  removelast (map f l) = map f (removelast l).
Proof.
  induction l as [|a l IH]; [reflexivity|].
  destruct l as [|b l]; [reflexivity|].
  change (f a :: removelast (map f (b :: l)) = f a :: map f (removelast (b :: l))).
  now rewrite IH.
Qed.

Lemma last_map_Z (f : Z -> Z) (l : list Z) :
  l <> [] -> last (map f l) 0 = f (last l 0).
Proof.
  induction l as [|a l IH]; [contradiction|]. intros _.
  destruct l as [|b l]; [reflexivity|].
  change (last (map f (b :: l)) 0 = f (last (b :: l) 0)).
  apply IH. discriminate.
Qed.

(** X11: on an irreducible well-generated group with increasing degrees,
    where degrees and codegrees pair up to [h], the codegree that
    [codegrees[:-1]] drops is 0, the codegrees kept are [h - d] for every
    degree [d] but the last, and so the method returns
    [rank * h * prod(h - d for d in degrees[:-1]) // cardinality]: had the
    last codegree been kept, the product would have been 0. *)
Theorem full_support_from_degrees (G : Group) (ds cs : list Z) (h : Z) :
  degrees_impl G = Some ds ->
  codegrees_impl G = Some cs ->
  WGI.coxeter_number G = Ok h ->
  degrees_codegrees_dual ds cs h ->
  Sorted Z.le ds ->
  prod ds <> 0 ->
  last cs 0 = 0 /\
  but_last cs = map (fun d => h - d) (but_last ds) /\
  prod cs = 0 /\
  WGI.number_of_reflections_of_full_support G
  = Ok (len ds * h * prod (map (fun d => h - d) (but_last ds)) / prod ds).
Proof.
  intros Hd Hc Hh Hdual Hs Hl.
  rewrite (coxeter_number_max G ds Hd) in Hh.
  assert (Hne : ds <> []) by (intros ->; discriminate Hh).
  assert (Hlast : last ds 0 = h).
  { pose proof (max_of_bound ds (last ds 0) (last_In ds Hne) (sorted_le_last ds Hs)).
    congruence. }
  pose proof (dual_codegrees ds cs h Hdual) as Ecs.
  assert (Hc0 : last cs 0 = 0).
  { rewrite Ecs, last_map_Z by assumption. lia. }
  assert (Hbut : but_last cs = map (fun d => h - d) (but_last ds)).
  { unfold but_last. rewrite Ecs. apply removelast_map_Z. }
  repeat split.
  - exact Hc0.
  - exact Hbut.
  - assert (Hin : In 0 cs).
    { rewrite <- Hc0. apply last_In. rewrite Ecs. destruct ds; [contradiction | discriminate]. }
    clear - Hin. induction cs as [|c cs IH]; [contradiction|].
    rewrite prod_Z_cons. destruct Hin as [-> | Hin]; [lia|].
    rewrite (IH Hin). lia.
  - rewrite (full_support_value G ds cs h Hd Hc Hh Hl). now rewrite Hbut.
Qed.

Lemma full_support_from_degrees_witness :
  last [6; 3; 0] 0 = 0 /\
  but_last [6; 3; 0] = map (fun d => 9 - d) (but_last [3; 6; 9]) /\
  prod [6; 3; 0] = 0 /\
  WGI.number_of_reflections_of_full_support ColoredPermutations_3_3
  = Ok (len [3; 6; 9] * 9 * prod (map (fun d => 9 - d) (but_last [3; 6; 9]))
        / prod [3; 6; 9]).
Proof.
  apply (full_support_from_degrees ColoredPermutations_3_3 [3; 6; 9] [6; 3; 0] 9).
  - reflexivity.
  - reflexivity.
  - reflexivity.
  - unfold degrees_codegrees_dual. repeat constructor.
  - repeat constructor; discriminate.
  - discriminate.
Defined.

(** ** Closed forms of the Catalan numbers *)

(** When every factor [p + (p*(d-1)) % h] has the closed form [g d], the
    numerator is the product of the [g d]. *)
Lemma rational_catalan_number_factors
    (G : Group) (ds : list Z) (h p : Z) (g : Z -> Z) :
  degrees_impl G = Some ds ->
  positive_degrees ds ->
  WGI.coxeter_number G = Ok h ->
  gcd h p = 1 ->
  (forall d, In d ds -> p + (p * (d - 1)) mod h = g d) ->
  WGI.rational_catalan_number G p false
  = Ok (Integer (prod (map g ds) / prod ds)) /\
  exists quo,
    pfloordiv (prod (map (fun d => q_int (g d)) ds)) (prod (map q_int ds))
    = Ok quo /\
    WGI.rational_catalan_number G p true = Ok (Polynomial quo).
Proof.
  intros Hd Hpos Hh Hg Hfac.
  destruct (rational_catalan_number_value G ds h p Hd Hpos Hh Hg)
    as (Ei & quo & Eq & Ep).
  assert (E1 : map (fun d => p + (p * (d - 1)) mod h) ds = map g ds).
  { apply map_ext_in. exact Hfac. }
  assert (E2 : map (fun d => q_int (p + (p * (d - 1)) mod h)) ds
               = map (fun d => q_int (g d)) ds).
  { apply map_ext_in. intros d Hin. now rewrite (Hfac d Hin). }
  rewrite E1 in Ei. rewrite E2 in Eq. split; [exact Ei|].
  exists quo. now split.
Qed.

(** Positive degrees lie between 1 and the Coxeter number. *)
Lemma degrees_in_range (G : Group) (ds : list Z) (h : Z) :
  degrees_impl G = Some ds ->
  positive_degrees ds ->
  WGI.coxeter_number G = Ok h ->
  forall d, In d ds -> 1 <= d <= h.
Proof.
  intros Hd Hpos Hh d Hin.
  rewrite (coxeter_number_max G ds Hd) in Hh.
  destruct (max_spec ds h Hh) as [_ Hall].
  unfold positive_degrees in Hpos. rewrite Forall_forall in Hpos, Hall.
  specialize (Hpos d Hin). specialize (Hall d Hin). lia.
Qed.

Lemma factor_plus (h m d : Z) :
  1 <= d <= h -> m * h + 1 + ((m * h + 1) * (d - 1)) mod h = d + m * h.
Proof.
  intros Hd.
  replace ((m * h + 1) * (d - 1)) with ((d - 1) + (m * (d - 1)) * h) by ring.
  rewrite Z.mod_add by lia. rewrite Z.mod_small by lia. lia.
Qed.

Lemma factor_minus (h m d : Z) :
  2 <= d <= h -> m * h - 1 + ((m * h - 1) * (d - 1)) mod h = (m + 1) * h - d.
Proof.
  intros Hd.
  replace ((m * h - 1) * (d - 1))
    with ((h - (d - 1)) + (m * (d - 1) - 1) * h) by ring.
  rewrite Z.mod_add by lia. rewrite Z.mod_small by lia. lia.
Qed.

Lemma pmul_one_l (p : poly) : peq p (pmul [1] p).
Proof.
  intros i. destruct i as [|i].
  - rewrite coeff_pmul_0. lia.
  - rewrite coeff_pmul_S. change (pmul [] p) with (@nil Z).
    rewrite coeff_nil. lia.
Qed.

(** X12: [rational_catalan_number(1)] is 1, and so is
    [fuss_catalan_number(0)]: for [p = 1] every factor of the numerator is
    the degree itself, so numerator and denominator coincide.  With
    [polynomial=True] the value is the constant polynomial 1. *)
Theorem rational_catalan_number_one (G : Group) (ds : list Z) (h : Z) :
  degrees_impl G = Some ds ->
  positive_degrees ds ->
  WGI.coxeter_number G = Ok h ->
  WGI.rational_catalan_number G 1 false = Ok (Integer 1) /\
  WGI.rational_catalan_number G 1 true = Ok (Polynomial [1]) /\
  WGI.fuss_catalan_number G 0 false false = Ok (Integer 1) /\
  WGI.fuss_catalan_number G 0 false true = Ok (Polynomial [1]).
Proof.
  intros Hd Hpos Hh.
  assert (Hg : gcd h 1 = 1) by apply Z.gcd_1_r.
  assert (Hfac : forall d, In d ds -> 1 + (1 * (d - 1)) mod h = d).
  { intros d Hin. pose proof (degrees_in_range G ds h Hd Hpos Hh d Hin).
    rewrite Z.mul_1_l, Z.mod_small by lia. lia. }
  destruct (rational_catalan_number_factors G ds h 1 (fun d => d)
              Hd Hpos Hh Hg Hfac) as (Ei & quo & Eq & Ep).
  rewrite map_id_Z in Ei.
  assert (Ei' : WGI.rational_catalan_number G 1 false = Ok (Integer 1)).
  { rewrite Ei. do 2 f_equal. apply Z.div_same.
    now apply positive_prod_nonzero. }
  assert (Ep' : WGI.rational_catalan_number G 1 true = Ok (Polynomial [1])).
  { rewrite Ep. do 2 f_equal.
    destruct (prod_q_int_monic ds Hpos) as [m Hm].
    assert (Eq' : pfloordiv (prod (map q_int ds)) (prod (map q_int ds)) = Ok quo)
      by exact Eq.
    rewrite (pfloordiv_exact _ _ [1] m Hm (pmul_one_l _)) in Eq'.
    now injection Eq' as <-. }
  assert (F : forall polynomial,
             WGI.fuss_catalan_number G 0 false polynomial
             = WGI.rational_catalan_number G 1 polynomial).
  { intros polynomial. unfold WGI.fuss_catalan_number. now rewrite Hh. }
  rewrite !F. repeat split; assumption.
Qed.

Lemma rational_catalan_number_one_witness :
  WGI.rational_catalan_number ColoredPermutations_3_3 1 false = Ok (Integer 1) /\
  WGI.rational_catalan_number ColoredPermutations_3_3 1 true = Ok (Polynomial [1]) /\
  WGI.fuss_catalan_number ColoredPermutations_3_3 0 false false = Ok (Integer 1) /\
  WGI.fuss_catalan_number ColoredPermutations_3_3 0 false true
  = Ok (Polynomial [1]).
Proof.
  apply (rational_catalan_number_one ColoredPermutations_3_3 [3; 6; 9] 9).
  - reflexivity.
  - unfold positive_degrees. repeat constructor.
  - reflexivity.
Defined.

(** X13: the code computes the formula of its docstring.  For [m >= 0]
    and positive degrees, [fuss_catalan_number(m)] is
    [prod(d + m*h) // prod(d)] over the degrees [d], its q-analogue is the
    quotient of the products of the matching q-integers, and
    [catalan_number()] is [prod(d + h) // prod(d)]. *)
Theorem fuss_catalan_closed_form (G : Group) (ds : list Z) (h m : Z) :
  degrees_impl G = Some ds ->
  positive_degrees ds ->
  WGI.coxeter_number G = Ok h ->
  0 <= m ->
  WGI.fuss_catalan_number G m false false
  = Ok (Integer (prod (map (fun d => d + m * h) ds) / prod ds)) /\
  (exists quo,
     pfloordiv (prod (map (fun d => q_int (d + m * h)) ds)) (prod (map q_int ds))
     = Ok quo /\
     WGI.fuss_catalan_number G m false true = Ok (Polynomial quo)) /\
  WGI.catalan_number G false false
  = Ok (Integer (prod (map (fun d => d + h) ds) / prod ds)).
Proof.
  intros Hd Hpos Hh Hm.
  assert (F : forall k polynomial,
             WGI.fuss_catalan_number G k false polynomial
             = WGI.rational_catalan_number G (k * h + 1) polynomial).
  { intros k polynomial. unfold WGI.fuss_catalan_number. now rewrite Hh. }
  assert (V : forall k,
    WGI.rational_catalan_number G (k * h + 1) false
    = Ok (Integer (prod (map (fun d => d + k * h) ds) / prod ds)) /\
    exists quo,
      pfloordiv (prod (map (fun d => q_int (d + k * h)) ds)) (prod (map q_int ds))
      = Ok quo /\
      WGI.rational_catalan_number G (k * h + 1) true = Ok (Polynomial quo)).
  { intros k.
    apply (rational_catalan_number_factors G ds h (k * h + 1)
             (fun d => d + k * h) Hd Hpos Hh (gcd_mul_plus_1 h k)).
    intros d Hin. apply factor_plus.
    exact (degrees_in_range G ds h Hd Hpos Hh d Hin). }
  destruct (V m) as (Vi & quo & Vq & Vp).
  repeat split.
  - now rewrite F.
  - exists quo. split; [exact Vq | now rewrite F].
  - unfold WGI.catalan_number. rewrite F.
    destruct (V 1) as (V1 & _). rewrite V1.
    replace (map (fun d => d + 1 * h) ds) with (map (fun d => d + h) ds);
      [reflexivity|].
    apply map_ext. intros d. lia.
Qed.

Lemma fuss_catalan_closed_form_witness :
  WGI.fuss_catalan_number ColoredPermutations_2_4 3 false false
  = Ok (Integer (prod (map (fun d => d + 3 * 8) [2; 4; 6; 8]) / prod [2; 4; 6; 8])) /\
  (exists quo,
     pfloordiv (prod (map (fun d => q_int (d + 3 * 8)) [2; 4; 6; 8]))
               (prod (map q_int [2; 4; 6; 8])) = Ok quo /\
     WGI.fuss_catalan_number ColoredPermutations_2_4 3 false true
     = Ok (Polynomial quo)) /\
  WGI.catalan_number ColoredPermutations_2_4 false false
  = Ok (Integer (prod (map (fun d => d + 8) [2; 4; 6; 8]) / prod [2; 4; 6; 8])).
Proof.
  apply (fuss_catalan_closed_form ColoredPermutations_2_4 [2; 4; 6; 8] 8 3).
  - reflexivity.
  - unfold positive_degrees. repeat constructor.
  - reflexivity.
  - discriminate.
Defined.

Lemma two_le_positive (ds : list Z) :
  Forall (fun d => 2 <= d) ds -> positive_degrees ds.
Proof.
  unfold positive_degrees. apply Forall_impl. intros d Hd. lia.
Qed.

(** The parameter [m*h - 1] of the positive variant turns the factor of a
    degree [d >= 2] into [(m+1)*h - d]. *)
Lemma positive_fuss_value (G : Group) (ds : list Z) (h m : Z) :
  degrees_impl G = Some ds ->
  Forall (fun d => 2 <= d) ds ->
  WGI.coxeter_number G = Ok h ->
  (forall polynomial,
     WGI.fuss_catalan_number G m true polynomial
     = WGI.rational_catalan_number G (m * h - 1) polynomial) /\
  WGI.rational_catalan_number G (m * h - 1) false
  = Ok (Integer (prod (map (fun d => (m + 1) * h - d) ds) / prod ds)) /\
  exists quo,
    pfloordiv (prod (map (fun d => q_int ((m + 1) * h - d)) ds))
              (prod (map q_int ds)) = Ok quo /\
    WGI.rational_catalan_number G (m * h - 1) true = Ok (Polynomial quo).
Proof.
  intros Hd H2 Hh. pose proof (two_le_positive ds H2) as Hpos. split.
  - intros polynomial. unfold WGI.fuss_catalan_number. now rewrite Hh.
  - apply (rational_catalan_number_factors G ds h (m * h - 1)
             (fun d => (m + 1) * h - d) Hd Hpos Hh (gcd_mul_minus_1 h m)).
    intros d Hin. apply factor_minus.
    pose proof (degrees_in_range G ds h Hd Hpos Hh d Hin).
    rewrite Forall_forall in H2. specialize (H2 d Hin). lia.
Qed.

(** X14: for [m >= 0] and degrees that are all at least 2, the positive
    Fuss-Catalan number [fuss_catalan_number(m, positive=True)] is
    [prod((m+1)*h - d) // prod(d)] over the degrees [d], with the matching
    q-analogue, and the positive Catalan number is
    [prod(2*h - d) // prod(d)]. *)
Theorem positive_fuss_catalan_closed_form
    (G : Group) (ds : list Z) (h m : Z) :
  degrees_impl G = Some ds ->
  Forall (fun d => 2 <= d) ds ->
  WGI.coxeter_number G = Ok h ->
  0 <= m ->
  WGI.fuss_catalan_number G m true false
  = Ok (Integer (prod (map (fun d => (m + 1) * h - d) ds) / prod ds)) /\
  (exists quo,
     pfloordiv (prod (map (fun d => q_int ((m + 1) * h - d)) ds))
               (prod (map q_int ds)) = Ok quo /\
     WGI.fuss_catalan_number G m true true = Ok (Polynomial quo)) /\
  WGI.catalan_number G true false
  = Ok (Integer (prod (map (fun d => 2 * h - d) ds) / prod ds)).
Proof.
  intros Hd H2 Hh Hm.
  destruct (positive_fuss_value G ds h m Hd H2 Hh) as (F & Vi & quo & Vq & Vp).
  repeat split.
  - now rewrite F.
  - exists quo. split; [exact Vq | now rewrite F].
  - unfold WGI.catalan_number.
    destruct (positive_fuss_value G ds h 1 Hd H2 Hh) as (F1 & V1 & _).
    rewrite F1, V1.
    replace (map (fun d => (1 + 1) * h - d) ds) with (map (fun d => 2 * h - d) ds);
      [reflexivity|].
    apply map_ext. intros d. lia.
Qed.

Lemma positive_fuss_catalan_closed_form_witness :
  WGI.fuss_catalan_number ColoredPermutations_2_4 2 true false = Ok (Integer 330) /\
  (exists quo,
     pfloordiv (prod (map (fun d => q_int ((2 + 1) * 8 - d)) [2; 4; 6; 8]))
               (prod (map q_int [2; 4; 6; 8])) = Ok quo /\
     WGI.fuss_catalan_number ColoredPermutations_2_4 2 true true
     = Ok (Polynomial quo)) /\
  WGI.catalan_number ColoredPermutations_2_4 true false = Ok (Integer 35).
Proof.
  apply (positive_fuss_catalan_closed_form ColoredPermutations_2_4 [2; 4; 6; 8] 8 2).
  - reflexivity.
  - repeat constructor; discriminate.
  - reflexivity.
  - discriminate.
Defined.

Lemma prod_Z_zero (l : list Z) : In 0 l -> prod l = 0.
Proof.
  induction l as [|c l IH]; [contradiction|].
  intros Hin. rewrite prod_Z_cons. destruct Hin as [-> | Hin]; [lia|].
  rewrite (IH Hin). lia.
Qed.

Lemma pmul_zero_r (p : poly) (i : nat) : coeff (pmul p []) i = 0.
Proof.
  revert i; induction p as [|a p IH]; intros i.
  - apply coeff_nil.
  - destruct i as [|i].
    + rewrite coeff_pmul_0, coeff_nil. lia.
    + rewrite coeff_pmul_S, coeff_nil, IH. lia.
Qed.

Lemma fold_left_pmul_zero_acc (l : list poly) (acc : poly) :
  (forall i, coeff acc i = 0) -> forall i, coeff (fold_left pmul l acc) i = 0.
Proof.
  revert acc; induction l as [|p l IH]; intros acc Hacc; [exact Hacc|].
  simpl. apply IH. now apply pmul_zero_l.
Qed.

(** A product of polynomials with a zero factor is the zero polynomial. *)
Lemma fold_left_pmul_zero (l : list poly) (acc : poly) :
  In [] l -> forall i, coeff (fold_left pmul l acc) i = 0.
Proof.
  revert acc; induction l as [|p l IH]; intros acc Hin; [contradiction|].
  simpl. destruct Hin as [-> | Hin].
  - apply fold_left_pmul_zero_acc. apply pmul_zero_r.
  - now apply IH.
Qed.

(** X15: [fuss_catalan_number(0, positive=True)] is 0 when every degree is
    at least 2: the factor of the largest degree is [h - h = 0].  The
    q-analogue is the zero polynomial. *)
Theorem positive_fuss_catalan_zero (G : Group) (ds : list Z) (h : Z) :
  degrees_impl G = Some ds ->
  Forall (fun d => 2 <= d) ds ->
  WGI.coxeter_number G = Ok h ->
  WGI.fuss_catalan_number G 0 true false = Ok (Integer 0) /\
  WGI.fuss_catalan_number G 0 true true = Ok (Polynomial []).
Proof.
  intros Hd H2 Hh.
  destruct (positive_fuss_value G ds h 0 Hd H2 Hh) as (F & Vi & quo & Vq & Vp).
  assert (Hin : In h ds).
  { rewrite (coxeter_number_max G ds Hd) in Hh. now apply max_spec. }
  rewrite !F. split.
  - rewrite Vi. do 2 f_equal.
    rewrite prod_Z_zero; [reflexivity|].
    apply in_map_iff. exists h. split; [lia | exact Hin].
  - rewrite Vp. do 2 f_equal.
    destruct (prod_q_int_monic ds (two_le_positive ds H2)) as [k Hk].
    rewrite (pfloordiv_exact _ _ [] k Hk) in Vq.
    + now injection Vq as <-.
    + intros i. change (pmul [] (prod (map q_int ds))) with (@nil Z).
      rewrite coeff_nil. apply fold_left_pmul_zero.
      apply in_map_iff. exists h. split; [|exact Hin].
      replace ((0 + 1) * h - h) with 0 by lia. reflexivity.
Qed.

Lemma positive_fuss_catalan_zero_witness :
  WGI.fuss_catalan_number ColoredPermutations_3_3 0 true false = Ok (Integer 0) /\
  WGI.fuss_catalan_number ColoredPermutations_3_3 0 true true = Ok (Polynomial []).
Proof.
  apply (positive_fuss_catalan_zero ColoredPermutations_3_3 [3; 6; 9] 9).
  - reflexivity.
  - repeat constructor; discriminate.
  - reflexivity.
Defined.

(** ** When the rational Catalan number is defined *)

Lemma catalan_quotient_zero {R : Type} `{Number R} (f : Z -> R)
    (G : Group) (ds : list Z) (p : Z) :
  degrees_impl G = Some ds -> ds <> [] ->
  WGI.catalan_quotient f G p 0 = Raise ZeroDivisionError.
Proof.
  intros Hd Hne. unfold WGI.catalan_quotient.
  rewrite (degrees_Some G ds Hd), bind_Ok.
  now rewrite mapM_factors_zero.
Qed.

Lemma rational_catalan_number_past_test (G : Group) (ds : list Z) (h p : Z) :
  degrees_impl G = Some ds ->
  max ds = Ok h ->
  gcd h p = 1 ->
  WGI.rational_catalan_number G p false
  = if (h =? 0) || (prod ds =? 0) then Raise ZeroDivisionError
    else Ok (Integer (prod (map (fun d => p + (p * (d - 1)) mod h) ds) / prod ds)).
Proof.
  intros Hd Hmax Hg.
  assert (Hh : WGI.coxeter_number G = Ok h).
  { now rewrite (coxeter_number_max G ds Hd). }
  destruct (Z.eqb_spec h 0) as [-> | Hnz]; simpl orb.
  - unfold WGI.rational_catalan_number. rewrite Hh, bind_Ok, Hg.
    cbn [Z.eqb Pos.eqb negb].
    rewrite (catalan_quotient_zero _ G ds p Hd); [reflexivity|].
    intros ->. discriminate Hmax.
  - destruct (rational_catalan_number_coprime G ds h p Hd Hh Hnz Hg) as [Ei _].
    rewrite Ei. simpl. now destruct (prod ds =? 0).
Qed.

(** X16: without the flag [polynomial], [rational_catalan_number(p)]
    returns a value exactly when the degrees are implemented and not
    empty, their maximum [h] is coprime to [p] and not 0, and no degree is
    0 (the cardinality is not 0).  Past the coprimality test the only
    failure left is [ZeroDivisionError], from [% h] when [h = 0] or from
    the final division when the cardinality is 0. *)
Theorem rational_catalan_number_defined (G : Group) (p : Z) :
  ((exists v, WGI.rational_catalan_number G p false = Ok v) <->
   (exists ds h, degrees_impl G = Some ds /\ max ds = Ok h /\
                 gcd h p = 1 /\ h <> 0 /\ prod ds <> 0)) /\
  (forall ds h, degrees_impl G = Some ds -> max ds = Ok h -> gcd h p = 1 ->
     h = 0 \/ prod ds = 0 ->
     WGI.rational_catalan_number G p false = Raise ZeroDivisionError).
Proof.
  split; [split|].
  - intros [v Hv].
    destruct (degrees_impl G) as [ds|] eqn:Hd.
    + destruct (max ds) as [h | e] eqn:Hmax.
      * exists ds, h.
        assert (Hh : WGI.coxeter_number G = Ok h).
        { now rewrite (coxeter_number_max G ds Hd). }
        destruct (Z.eq_dec (gcd h p) 1) as [Hg | Hg].
        -- rewrite (rational_catalan_number_past_test G ds h p Hd Hmax Hg) in Hv.
           destruct (Z.eqb_spec h 0); [discriminate Hv|].
           destruct (Z.eqb_spec (prod ds) 0); [discriminate Hv|].
           repeat split; assumption.
        -- exfalso. unfold WGI.rational_catalan_number in Hv.
           rewrite Hh, bind_Ok in Hv.
           destruct (Z.eqb_spec (gcd h p) 1); [contradiction | discriminate Hv].
      * exfalso. unfold WGI.rational_catalan_number in Hv.
        rewrite (coxeter_number_max G ds Hd), Hmax in Hv. discriminate Hv.
    + exfalso. unfold WGI.rational_catalan_number, WGI.coxeter_number,
        Base.degrees in Hv. rewrite Hd in Hv. discriminate Hv.
  - intros (ds & h & Hd & Hmax & Hg & Hnz & Hl).
    rewrite (rational_catalan_number_past_test G ds h p Hd Hmax Hg).
    destruct (Z.eqb_spec h 0); [contradiction|].
    destruct (Z.eqb_spec (prod ds) 0); [contradiction|].
    simpl. eauto.
  - intros ds h Hd Hmax Hg Hz.
    rewrite (rational_catalan_number_past_test G ds h p Hd Hmax Hg).
    destruct (Z.eqb_spec h 0) as [|Hnz]; [reflexivity|].
    destruct (Z.eqb_spec (prod ds) 0) as [|Hl]; [reflexivity|].
    destruct Hz; contradiction.
Qed.

Lemma rational_catalan_number_defined_witness :
  (exists v, WGI.rational_catalan_number ColoredPermutations_3_3 5 false = Ok v) /\
  WGI.rational_catalan_number
    {| degrees_impl := Some [0; 3]; codegrees_impl := Some [3; 0];
       number_of_simple_reflections := 2;
       number_of_irreducible_components := 1 |} 5 false
  = Raise ZeroDivisionError.
Proof.
  split.
  - apply (rational_catalan_number_defined ColoredPermutations_3_3 5).
    exists [3; 6; 9], 9. repeat split; discriminate.
  - apply (rational_catalan_number_defined _ 5) with (ds := [0; 3]) (h := 3).
    + reflexivity.
    + reflexivity.
    + reflexivity.
    + right. reflexivity.
Defined.

(** ** The order of the degrees *)

Lemma sum_Permutation (l l' : list Z) : Permutation l l' -> sum l = sum l'.
Proof.
  induction 1 as [| x l l' _ IH | x y l | l l' l'' _ IH1 _ IH2].
  - reflexivity.
  - now rewrite !sum_cons, IH.
  - rewrite !sum_cons. lia.
  - now rewrite IH1.
Qed.

Lemma prod_Permutation (l l' : list Z) : Permutation l l' -> prod l = prod l'.
Proof.
  induction 1 as [| x l l' _ IH | x y l | l l' l'' _ IH1 _ IH2].
  - reflexivity.
  - now rewrite !prod_Z_cons, IH.
  - rewrite !prod_Z_cons. lia.
  - now rewrite IH1.
Qed.

Lemma max_Permutation (l l' : list Z) : Permutation l l' -> max l = max l'.
Proof.
  intros HP. destruct (max l) as [h | e] eqn:E.
  - symmetry. destruct (max_spec l h E) as [Hin Hall].
    apply max_of_bound.
    + now apply (Permutation_in h HP).
    + now apply (Permutation_Forall HP).
  - destruct l; [|discriminate E].
    now rewrite (Permutation_nil HP).
Qed.

(** X17: the counts and the Catalan numbers depend on the degrees as a
    multiset only.  Two parents whose degrees are rearrangements of each
    other have the same rank, number of reflections, cardinality and
    Coxeter number, the same rational and Fuss-Catalan numbers for every
    parameter (same value or same error), and, with equally many
    irreducible components, the same answer to [is_real()]. *)
Theorem invariants_ignore_order (G G' : Group) (ds ds' : list Z) :
  degrees_impl G = Some ds ->
  degrees_impl G' = Some ds' ->
  Permutation ds ds' ->
  Base.rank G = Base.rank G' /\
  Base.number_of_reflections G = Base.number_of_reflections G' /\
  Base.cardinality G = Base.cardinality G' /\
  WGI.coxeter_number G = WGI.coxeter_number G' /\
  (forall p,
     WGI.rational_catalan_number G p false
     = WGI.rational_catalan_number G' p false) /\
  (forall m positive,
     WGI.fuss_catalan_number G m positive false
     = WGI.fuss_catalan_number G' m positive false) /\
  (number_of_irreducible_components G = number_of_irreducible_components G' ->
   Base.is_real G = Base.is_real G').
Proof.
  intros Hd Hd' HP.
  assert (Hlen : len ds = len ds').
  { unfold len. now rewrite (Permutation_length HP). }
  assert (Hcox : WGI.coxeter_number G = WGI.coxeter_number G').
  { rewrite (coxeter_number_max G ds Hd), (coxeter_number_max G' ds' Hd').
    now apply max_Permutation. }
  assert (Hrcn : forall p, WGI.rational_catalan_number G p false
                           = WGI.rational_catalan_number G' p false).
  { intros p. destruct (max ds) as [h | e] eqn:E.
    - assert (E' : max ds' = Ok h) by (now rewrite <- (max_Permutation ds ds' HP)).
      destruct (Z.eq_dec (gcd h p) 1) as [Hg | Hg].
      + rewrite (rational_catalan_number_past_test G ds h p Hd E Hg),
          (rational_catalan_number_past_test G' ds' h p Hd' E' Hg).
        rewrite (prod_Permutation ds ds' HP).
        rewrite (prod_Permutation _ _
                   (Permutation_map (fun d => p + (p * (d - 1)) mod h) HP)).
        reflexivity.
      + unfold WGI.rational_catalan_number.
        rewrite <- Hcox, (coxeter_number_max G ds Hd), E, !bind_Ok.
        destruct (Z.eqb_spec (gcd h p) 1); [contradiction | reflexivity].
    - unfold WGI.rational_catalan_number.
      rewrite <- Hcox, (coxeter_number_max G ds Hd), E. reflexivity. }
  repeat split.
  - now rewrite (rank_Some G ds Hd), (rank_Some G' ds' Hd'), Hlen.
  - unfold Base.number_of_reflections.
    rewrite (degrees_Some G ds Hd), (degrees_Some G' ds' Hd'),
      (rank_Some G ds Hd), (rank_Some G' ds' Hd'). simpl.
    now rewrite Hlen, (sum_Permutation ds ds' HP).
  - unfold Base.cardinality.
    rewrite (degrees_Some G ds Hd), (degrees_Some G' ds' Hd'). simpl.
    now rewrite (prod_Permutation ds ds' HP).
  - exact Hcox.
  - exact Hrcn.
  - intros m positive. unfold WGI.fuss_catalan_number. rewrite <- Hcox.
    destruct (WGI.coxeter_number G) as [h | e]; [|reflexivity].
    simpl. apply Hrcn.
  - intros Hc. unfold Base.is_real.
    rewrite (degrees_Some G ds Hd), (degrees_Some G' ds' Hd'). simpl.
    unfold count. rewrite Hc.
    now rewrite (proj1 (Permutation_count_occ Z.eq_dec ds ds') HP 2).
Qed.

Lemma invariants_ignore_order_witness :
  let G' := {| degrees_impl := Some [9; 3; 6]; codegrees_impl := Some [6; 3; 0];
               number_of_simple_reflections := 3;
               number_of_irreducible_components := 1 |} in
  Base.cardinality ColoredPermutations_3_3 = Base.cardinality G' /\
  WGI.coxeter_number ColoredPermutations_3_3 = WGI.coxeter_number G' /\
  WGI.rational_catalan_number ColoredPermutations_3_3 5 false
  = WGI.rational_catalan_number G' 5 false.
Proof.
  intros G'.
  destruct (invariants_ignore_order ColoredPermutations_3_3 G' [3; 6; 9] [9; 3; 6]
              eq_refl eq_refl) as (_ & _ & Hc & Hh & Hr & _).
  - apply Permutation_cons_app with (l1 := [9]) (l2 := [6]).
    apply Permutation_cons_app with (l1 := [9]) (l2 := []).
    apply Permutation_refl.
  - split; [exact Hc | split; [exact Hh | exact (Hr 5)]].
Defined.

(** ** Direct products *)

Lemma sum_app (l1 l2 : list Z) : sum (l1 ++ l2) = sum l1 + sum l2.
Proof.
  induction l1 as [|x l1 IH]; [reflexivity|].
  change ((x :: l1) ++ l2) with (x :: (l1 ++ l2)).
  rewrite !sum_cons, IH. lia.
Qed.

Lemma prod_app (l1 l2 : list Z) : prod (l1 ++ l2) = prod l1 * prod l2.
Proof.
  induction l1 as [|x l1 IH].
  - change (prod []) with 1. simpl app. lia.
  - change ((x :: l1) ++ l2) with (x :: (l1 ++ l2)).
    rewrite !prod_Z_cons, IH. lia.
Qed.

(** X18: the counts compose over direct products.  When the degrees of
    [G] are those of [G1] and of [G2] put together, in any order, the rank
    and the number of reflections of [G] are the sums, and the cardinality
    the product, of those of [G1] and [G2].  If moreover the simple
    reflections add up, [G] is well generated as soon as [G1] and [G2]
    are; and if the irreducible components add up, [G] is real as soon as
    [G1] and [G2] are. *)
Theorem counts_of_a_product (G G1 G2 : Group) (ds ds1 ds2 : list Z) :
  degrees_impl G = Some ds ->
  degrees_impl G1 = Some ds1 ->
  degrees_impl G2 = Some ds2 ->
  Permutation (ds1 ++ ds2) ds ->
  Base.rank G = (a <- Base.rank G1 ;; b <- Base.rank G2 ;; Ok (a + b)) /\
  Base.number_of_reflections G
  = (a <- Base.number_of_reflections G1 ;;
     b <- Base.number_of_reflections G2 ;; Ok (a + b)) /\
  Base.cardinality G
  = (a <- Base.cardinality G1 ;; b <- Base.cardinality G2 ;; Ok (a * b)) /\
  (number_of_simple_reflections G
   = number_of_simple_reflections G1 + number_of_simple_reflections G2 ->
   Base.is_well_generated G1 = Ok true ->
   Base.is_well_generated G2 = Ok true ->
   Base.is_well_generated G = Ok true) /\
  (number_of_irreducible_components G
   = number_of_irreducible_components G1 + number_of_irreducible_components G2 ->
   Base.is_real G1 = Ok true ->
   Base.is_real G2 = Ok true ->
   Base.is_real G = Ok true).
Proof.
  intros Hd Hd1 Hd2 HP.
  assert (Hlen : len ds = len ds1 + len ds2).
  { unfold len. rewrite <- (Permutation_length HP), length_app. lia. }
  assert (Hsum : sum ds = sum ds1 + sum ds2).
  { now rewrite <- (sum_Permutation _ _ HP), sum_app. }
  assert (Hprod : prod ds = prod ds1 * prod ds2).
  { now rewrite <- (prod_Permutation _ _ HP), prod_app. }
  assert (Hcount : count ds 2 = count ds1 2 + count ds2 2).
  { unfold count.
    rewrite <- (proj1 (Permutation_count_occ Z.eq_dec _ _) HP 2), count_occ_app.
    lia. }
  unfold Base.is_real, Base.is_well_generated, Base.cardinality,
    Base.number_of_reflections.
  rewrite !(rank_Some G ds Hd), !(rank_Some G1 ds1 Hd1), !(rank_Some G2 ds2 Hd2),
    !(degrees_Some G ds Hd), !(degrees_Some G1 ds1 Hd1), !(degrees_Some G2 ds2 Hd2).
  simpl. repeat split.
  - now rewrite Hlen.
  - f_equal. lia.
  - now rewrite Hprod.
  - intros Hn [= H1] [= H2]. f_equal.
    apply Z.eqb_eq in H1, H2. apply Z.eqb_eq. lia.
  - intros Hn [= H1] [= H2]. f_equal.
    apply Z.eqb_eq in H1, H2. apply Z.eqb_eq. lia.
Qed.

Lemma counts_of_a_product_witness :
  Base.rank ReflectionGroup_A2xB2 = Ok 4 /\
  Base.number_of_reflections ReflectionGroup_A2xB2 = Ok 7 /\
  Base.cardinality ReflectionGroup_A2xB2 = Ok 48 /\
  Base.is_well_generated ReflectionGroup_A2xB2 = Ok true /\
  Base.is_real ReflectionGroup_A2xB2 = Ok true.
Proof.
  destruct (counts_of_a_product ReflectionGroup_A2xB2
              ColoredPermutations_1_3 ColoredPermutations_2_2
              [2; 2; 3; 4] [2; 3] [2; 4] eq_refl eq_refl eq_refl)
    as (Hr & Hn & Hc & Hw & Hre).
  - apply perm_skip. apply Permutation_sym.
    apply Permutation_cons_app with (l1 := [3]) (l2 := [4]).
    apply Permutation_refl.
  - split; [exact Hr|]. split; [exact Hn|]. split; [exact Hc|].
    split; [apply Hw; reflexivity | apply Hre; reflexivity].
Defined.

(** ** Real groups *)

Lemma sum_map_minus_2 (ds : list Z) :
  sum (map (fun d => d - 2) ds) = sum ds - 2 * len ds.
Proof.
  induction ds as [|d ds IH]; [reflexivity|].
  change (map (fun d => d - 2) (d :: ds)) with ((d - 2) :: map (fun d => d - 2) ds).
  rewrite !sum_cons, IH. unfold len. simpl List.length.
  rewrite Nat2Z.inj_succ. lia.
Qed.

(** X19: as the docstrings say of real groups, the number of reflecting
    hyperplanes coincides with the number of reflections when the
    codegrees are the degrees minus 2, in any order. *)
Theorem hyperplanes_equal_reflections (G : Group) (ds cs : list Z) :
  degrees_impl G = Some ds ->
  codegrees_impl G = Some cs ->
  Permutation cs (map (fun d => d - 2) ds) ->
  Base.number_of_reflecting_hyperplanes G = Base.number_of_reflections G /\
  Base.number_of_reflections G = Ok (sum ds - len ds).
Proof.
  intros Hd Hc HP.
  unfold Base.number_of_reflecting_hyperplanes, Base.number_of_reflections.
  rewrite (codegrees_Some G cs Hc), (degrees_Some G ds Hd), (rank_Some G ds Hd).
  simpl. split; [|reflexivity]. f_equal.
  rewrite (sum_Permutation _ _ HP), sum_map_minus_2. lia.
Qed.

Lemma hyperplanes_equal_reflections_witness :
  Base.number_of_reflecting_hyperplanes ColoredPermutations_1_4
  = Base.number_of_reflections ColoredPermutations_1_4 /\
  Base.number_of_reflections ColoredPermutations_1_4 = Ok 6.
Proof.
  apply (hyperplanes_equal_reflections ColoredPermutations_1_4 [2; 3; 4] [2; 1; 0]).
  - reflexivity.
  - reflexivity.
  - exact (Permutation_rev [2; 1; 0]).
Defined.

(** ** The q-analogue at [q = 1] *)

Lemma peval_padd (p q : poly) (x : Z) : peval (padd p q) x = peval p x + peval q x.
Proof.
  revert q; induction p as [|a p IH]; intros q; [reflexivity|].
  destruct q as [|b q]; simpl; [lia|].
  rewrite IH. ring.
Qed.

Lemma peval_pscale (c : Z) (p : poly) (x : Z) : peval (pscale c p) x = c * peval p x.
Proof.
  induction p as [|a p IH]; [simpl; lia|].
  change (c * a + x * peval (pscale c p) x = c * (a + x * peval p x)).
  rewrite IH. ring.
Qed.

Lemma peval_pmul (p q : poly) (x : Z) : peval (pmul p q) x = peval p x * peval q x.
Proof.
  induction p as [|a p IH]; [reflexivity|].
  simpl pmul. rewrite peval_padd, peval_pscale. simpl peval. rewrite IH. ring.
Qed.

Lemma peval_pnorm (p : poly) (x : Z) : peval (pnorm p) x = peval p x.
Proof.
  induction p as [|a p IH]; [reflexivity|].
  simpl. destruct (pnorm p) as [|b r] eqn:E.
  - simpl in IH. rewrite <- IH.
    destruct (Z.eqb_spec a 0) as [-> | _]; simpl; lia.
  - change (a + x * peval (b :: r) x = a + x * peval p x). now rewrite IH.
Qed.

Lemma peval_peq (p q : poly) (x : Z) : peq p q -> peval p x = peval q x.
Proof.
  intros H. rewrite <- (peval_pnorm p), <- (peval_pnorm q).
  now rewrite (pnorm_peq p q H).
Qed.

Lemma peval_q_int (n : Z) : 0 <= n -> peval (q_int n) 1 = n.
Proof.
  intros Hn. unfold q_int.
  assert (E : forall k, peval (repeat 1 k) 1 = Z.of_nat k).
  { induction k as [|k IH]; [reflexivity|].
    change (1 + 1 * peval (repeat 1 k) 1 = Z.of_nat (S k)).
    rewrite IH, Nat2Z.inj_succ. lia. }
  rewrite E. now apply Z2Nat.id.
Qed.

Lemma peval_fold_left_pmul (l : list poly) (acc : poly) (x : Z) :
  peval (fold_left pmul l acc) x
  = peval acc x * fold_left Z.mul (map (fun p => peval p x) l) 1.
Proof.
  revert acc; induction l as [|p l IH]; intros acc; simpl.
  - lia.
  - rewrite IH, peval_pmul.
    rewrite (fold_left_mul_acc _ (1 * peval p x)). ring.
Qed.

(** At [q = 1] a product of q-integers of non-negative numbers is the
    product of the numbers. *)
Lemma peval_prod_q_int (g : Z -> Z) (ds : list Z) :
  (forall d, In d ds -> 0 <= g d) ->
  peval (prod (map (fun d => q_int (g d)) ds)) 1 = prod (map g ds).
Proof.
  intros Hg. unfold prod. simpl one. simpl mul.
  rewrite peval_fold_left_pmul. simpl peval. rewrite map_map.
  replace (map (fun d => peval (q_int (g d)) 1) ds) with (map g ds); [lia|].
  apply map_ext_in. intros d Hin. symmetry. now apply peval_q_int, Hg.
Qed.

(** X20: at [q = 1] the q-analogue is the number.  For [p >= 0] coprime
    to [h], whenever the product of the q-integers of the degrees divides
    that of the factors, with quotient [Q], the method returns [Q] with
    [polynomial=True] and the value of [Q] at 1 without it. *)
Theorem q_analogue_at_one (G : Group) (ds : list Z) (h p : Z) (Q : poly) :
  degrees_impl G = Some ds ->
  positive_degrees ds ->
  WGI.coxeter_number G = Ok h ->
  gcd h p = 1 ->
  0 <= p ->
  peq (prod (map (fun d => q_int (p + (p * (d - 1)) mod h)) ds))
      (pmul Q (prod (map q_int ds))) ->
  WGI.rational_catalan_number G p true = Ok (Polynomial (pnorm Q)) /\
  WGI.rational_catalan_number G p false = Ok (Integer (peval (pnorm Q) 1)).
Proof.
  intros Hd Hpos Hh Hg Hp HQ.
  destruct (rational_catalan_number_value G ds h p Hd Hpos Hh Hg)
    as (Ei & quo & Eq & Ep).
  destruct (prod_q_int_monic ds Hpos) as [m Hm].
  rewrite (pfloordiv_exact _ _ Q m Hm HQ) in Eq. injection Eq as <-.
  split; [exact Ep|]. rewrite Ei. do 2 f_equal.
  assert (Hh0 : 0 < h).
  { rewrite (coxeter_number_max G ds Hd) in Hh. now apply (max_positive ds). }
  pose proof (peval_peq _ _ 1 HQ) as E.
  rewrite peval_pmul in E.
  rewrite (peval_prod_q_int (fun d => p + (p * (d - 1)) mod h)) in E.
  - rewrite (peval_prod_q_int (fun d => d)) in E.
    + rewrite map_id_Z in E. rewrite E, peval_pnorm.
      apply Z.div_mul. now apply positive_prod_nonzero.
    + intros d Hin. unfold positive_degrees in Hpos.
      rewrite Forall_forall in Hpos. specialize (Hpos d Hin). lia.
  - intros d _. pose proof (Z.mod_pos_bound (p * (d - 1)) h Hh0). lia.
Qed.

Lemma q_analogue_at_one_witness :
  WGI.rational_catalan_number ColoredPermutations_1_4 3 true
  = Ok (Polynomial [1; 0; 1; 1; 1; 0; 1]) /\
  WGI.rational_catalan_number ColoredPermutations_1_4 3 false = Ok (Integer 5).
Proof.
  apply (q_analogue_at_one ColoredPermutations_1_4 [2; 3; 4] 4 3
           [1; 0; 1; 1; 1; 0; 1]).
  - reflexivity.
  - unfold positive_degrees. repeat constructor.
  - reflexivity.
  - reflexivity.
  - discriminate.
  - intros i. reflexivity.
Defined.
